(** * tif2webp: batch conversion of TIFF files to lossless WebP

    A shallow embedding of [tif2webp.py] (directory discovery, incremental
    filtering, the per-directory conversion loop, the driver and its summary)
    and the properties of it that the specification states.

    Conventions of the embedding.
    - A Python [str] is the Rocq [string] of the bytes of its UTF-8
      encoding.  [lower] is ASCII lower-casing: on the suffix tests of this
      program (".tif", ".tiff", ".webp") it agrees with [str.lower].
      [strip] removes every code point that [str.isspace] holds for.
    - A Python [int] is a [Z]; a Python [float] is an abstract type with the
      operations the program uses (class [PyFloat]), so every theorem holds
      for IEEE doubles as for any other implementation.
    - The file system, the encoder calls and the exceptions are explicit:
      a computation is a function from a [World] to an outcome and a new
      [World] (monad [M]).  The external encoder [cwebp] is a parameter,
      and so is what [argparse] makes of the command line. *)

From Stdlib Require Import ZArith String Ascii List Bool Lia QArith.
From stdpp Require Import base option list gmap strings.

Local Open Scope string_scope.
Local Open Scope Z_scope.
Local Open Scope list_scope.

(** ** Python strings *)

Module Str.

Definition chars (s : string) : list ascii := list_ascii_of_string s.
Definition of_chars (l : list ascii) : string := string_of_list_ascii l.

(** [c.lower()] on one ASCII character. *)
Definition lower_char (c : ascii) : ascii :=
  let n := nat_of_ascii c in
  if (65 <=? n)%nat && (n <=? 90)%nat then ascii_of_nat (n + 32) else c.

(** [s.lower()] *)
Definition lower (s : string) : string := of_chars (map lower_char (chars s)).

(** [s.endswith(suf)] *)
Definition endswith (s suf : string) : bool :=
  bool_decide (chars suf `suffix_of` chars s).

(** [s.startswith(pre)] *)
Definition startswith (s pre : string) : bool :=
  bool_decide (chars pre `prefix_of` chars s).

(** [s.rfind(c)] for a one-character needle: the highest index of [c] in the
    string, [-1] when it does not occur. *)
Fixpoint rfind_chars (c : ascii) (l : list ascii) : Z :=
  match l with
  | [] => -1
  | x :: t =>
      let r := rfind_chars c t in
      if 0 <=? r then r + 1 else if Ascii.eqb x c then 0 else -1
  end.

Definition rfind (s : string) (c : ascii) : Z := rfind_chars c (chars s).

(** Slices [s[:i]], [s[i:]] and [s[i:j]] for indices [0 <= i <= j]. *)
Definition slice_to (s : string) (i : Z) : string :=
  of_chars (take (Z.to_nat i) (chars s)).
Definition slice_from (s : string) (i : Z) : string :=
  of_chars (drop (Z.to_nat i) (chars s)).
Definition slice (s : string) (i j : Z) : string :=
  of_chars (take (Z.to_nat j - Z.to_nat i) (drop (Z.to_nat i) (chars s))).

(** Truth value of a string: [bool(s)]. *)
Definition truthy (s : string) : bool :=
  match s with EmptyString => false | _ => true end.

(** The white space of [str.strip()]: the code points for which
    [str.isspace] holds, each as the bytes of its UTF-8 encoding. *)
Definition blank_codes : list (list ascii) :=
  map (map ascii_of_nat)
    [ [9]; [10]; [11]; [12]; [13];                      (* U+0009 - U+000D *)
      [28]; [29]; [30]; [31]; [32];                     (* U+001C - U+0020 *)
      [194; 133]; [194; 160];                           (* U+0085, U+00A0 *)
      [225; 154; 128];                                  (* U+1680 *)
      [226; 128; 128]; [226; 128; 129]; [226; 128; 130]; [226; 128; 131];
      [226; 128; 132]; [226; 128; 133]; [226; 128; 134]; [226; 128; 135];
      [226; 128; 136]; [226; 128; 137]; [226; 128; 138]; (* U+2000 - U+200A *)
      [226; 128; 168]; [226; 128; 169];                 (* U+2028, U+2029 *)
      [226; 128; 175];                                  (* U+202F *)
      [226; 129; 159];                                  (* U+205F *)
      [227; 128; 128] ]%nat.                            (* U+3000 *)

(** What follows the first of [codes] that [l] starts with, if there is
    one. *)
Fixpoint strip_code (codes : list (list ascii)) (l : list ascii) : option (list ascii) :=
  match codes with
  | [] => None
  | b :: others =>
      if bool_decide (b `prefix_of` l) then Some (drop (length b) l)
      else strip_code others l
  end.

(** The leading [codes] of [l] removed, one after the other; [n] bounds
    their number, and the length of [l] is enough. *)
Fixpoint lstrip_codes (codes : list (list ascii)) (n : nat) (l : list ascii) : list ascii :=
  match n with
  | O => l
  | S k =>
      match strip_code codes l with
      | Some r => lstrip_codes codes k r
      | None => l
      end
  end.

(** [s.lstrip()] and [s.rstrip()] on the characters of [s]. *)
Definition lstrip_chars (l : list ascii) : list ascii :=
  lstrip_codes blank_codes (length l) l.

Definition rstrip_chars (l : list ascii) : list ascii :=
  rev (lstrip_codes (map (@rev ascii) blank_codes) (length l) (rev l)).

(** [s.strip()] *)
Definition strip (s : string) : string :=
  of_chars (rstrip_chars (lstrip_chars (chars s))).

(** [s.rstrip('/')] *)
Fixpoint lstrip_char (c : ascii) (l : list ascii) : list ascii :=
  match l with
  | [] => []
  | x :: t => if Ascii.eqb x c then lstrip_char c t else l
  end.
Definition rstrip_char (s : string) (c : ascii) : string :=
  of_chars (rev (lstrip_char c (rev (chars s)))).

End Str.

(** ** [os.path] on POSIX ([posixpath]) *)

Module PosixPath.

Definition sep : ascii := "/"%char.
Definition extsep : ascii := "."%char.

(** [os.path.basename(p)]: everything after the last separator. *)
Definition basename (p : string) : string :=
  let i := Str.rfind p sep + 1 in
  Str.slice_from p i.

(** [os.path.dirname(p)] *)
Definition dirname (p : string) : string :=
  let i := Str.rfind p sep + 1 in
  let head := Str.slice_to p i in
  if Str.truthy head && negb (forallb (Ascii.eqb sep) (Str.chars head))
  then Str.rstrip_char head sep
  else head.

(** [os.path.split(p)]: the head is [dirname p], the tail [basename p]. *)
Definition split (p : string) : string * string := (dirname p, basename p).

(** [os.path.join(a, b)] with two arguments. *)
Definition join (a b : string) : string :=
  if Str.startswith b "/" then b
  else if negb (Str.truthy a) || Str.endswith a "/" then a +:+ b
  else a +:+ "/" +:+ b.

(** [os.path.splitext(p)]: [genericpath._splitext(p, '/', None, '.')].
    The extension starts at the last dot after the last separator, unless
    only dots stand between that separator and the dot (leading dots are
    not an extension).  The [while] loop of the library, which returns the
    split at the first character of [p[sepIndex+1:dotIndex]] that is not a
    dot, is the [forallb] below. *)
Definition splitext (p : string) : string * string :=
  let sepIndex := Str.rfind p sep in
  let dotIndex := Str.rfind p extsep in
  if sepIndex <? dotIndex then
    if forallb (Ascii.eqb extsep) (Str.chars (Str.slice p (sepIndex + 1) dotIndex))
    then (p, "")
    else (Str.slice_to p dotIndex, Str.slice_from p dotIndex)
  else (p, "").

End PosixPath.

(** ** Python numbers

    The program adds and divides [int]s and [float]s.  [float] is abstract:
    only the operations used by the program are required. *)

Class PyFloat (F : Type) := {
  fadd : F -> F -> F;          (** [x + y] on floats *)
  fdiv : F -> F -> F;          (** [x / y] on floats, [y] not zero *)
  of_int : Z -> F;             (** [float(n)] *)
  int_truediv : Z -> Z -> F    (** [a / b] on ints, [b] not zero *)
}.

Inductive num (F : Type) : Type :=
  | I (n : Z)
  | Fl (x : F).
Arguments I {F} n.
Arguments Fl {F} x.

(** [x + y], with the coercion of an [int] operand when the other is a
    [float]. *)
Definition py_add {F} `{!PyFloat F} (x y : num F) : num F :=
  match x, y with
  | I a, I b => I (a + b)
  | I a, Fl b => Fl (fadd (of_int a) b)
  | Fl a, I b => Fl (fadd a (of_int b))
  | Fl a, Fl b => Fl (fadd a b)
  end.

(** [x / d] for an [int] divisor [d] that is not zero (all four divisions of
    the program have an [int] divisor). *)
Definition py_div {F} `{!PyFloat F} (x : num F) (d : Z) : num F :=
  match x with
  | I a => Fl (int_truediv a d)
  | Fl a => Fl (fdiv a (of_int d))
  end.

(** [sum(xs)]: a left fold from the [int] [0]. *)
Definition py_sum {F} `{!PyFloat F} (xs : list (num F)) : num F :=
  fold_left py_add xs (I 0).

Definition int_sum (xs : list Z) : Z := fold_left Z.add xs 0.

(** ** The world: file system, working directory and trace of effects *)

Inductive entry_kind := KFile | KDir | KOther.

(** An [os.DirEntry]: its [name], and what [is_file()] and [is_dir()]
    answer. *)
Record dirent := { name : string; kind : entry_kind }.

Definition is_file (e : dirent) : bool :=
  match kind e with KFile => true | _ => false end.
Definition is_dir (e : dirent) : bool :=
  match kind e with KDir => true | _ => false end.

(** What reading a file as text gives: its lines (as iterating over the
    open file yields them), or the failure to open it or to decode it. *)
Inductive text :=
  | Lines (ls : list string)
  | Unreadable
  | Undecodable.

(** A regular file: its size in bytes and what reading it as text gives. *)
Record file := { st_size : Z; content : text }.

(** Directories and files are identified by the path string the program
    uses for them: a directory that the run names in several ways is held
    under each of these spellings.  [dirs] gives, for each directory, its
    entries in the order [os.scandir] enumerates them.  The log file of the
    script, [tiff2webp.log], is kept apart: it is not among [files], and
    what the script writes to it is in the trace, not in [FS]. *)
Record FS := {
  dirs : gmap string (list dirent);
  files : gmap string file
}.

(** What a run does, in order: the calls of [os.makedirs], [os.scandir],
    [os.path.getsize] and of the encoder, and the calls of [logger.error],
    each of which writes a message to the console and to the log file.  The
    messages of [logger.info] are not recorded. *)
Inductive event :=
  | EvMakeDirs (p : string)
  | EvScanDir (p : string)
  | EvGetSize (p : string)
  | EvEncode (input_path output_path : string)
  | EvLogError.

Record World := {
  fs : FS;
  cwd : string;
  trace : list event
}.

Inductive exn :=
  | OSError (p : string)
  | UnicodeDecodeError
  | ZeroDivisionError
  | SystemExit (code : Z).

Inductive outcome (A : Type) : Type :=
  | Ok (a : A)
  | Raise (e : exn).
Arguments Ok {A} a.
Arguments Raise {A} e.

(** A computation: from a world to an outcome and the world it leaves. *)
Definition M (A : Type) : Type := World -> outcome A * World.

Definition ret {A} (a : A) : M A := fun w => (Ok a, w).

Definition bind {A B} (c : M A) (k : A -> M B) : M B :=
  fun w =>
    match c w with
    | (Ok a, w') => k a w'
    | (Raise e, w') => (Raise e, w')
    end.

Definition raise {A} (e : exn) : M A := fun w => (Raise e, w).

Notation "'let!' x ':=' c 'in' k" := (bind c (fun x => k))
  (at level 10, x pattern, c at level 100, k at level 200).

(** [for x in l: s = body(s, x)] *)
Fixpoint for_ {A S} (l : list A) (s : S) (body : S -> A -> M S) : M S :=
  match l with
  | [] => ret s
  | x :: rest => let! s' := body s x in for_ rest s' body
  end.

(** The world with one more event in its trace, and with another file
    system. *)
Definition log (w : World) (e : event) : World :=
  {| fs := fs w; cwd := cwd w; trace := trace w ++ [e] |}.

Definition set_fs (w : World) (f : FS) : World :=
  {| fs := f; cwd := cwd w; trace := trace w |}.

Definition log_event (e : event) : M unit := fun w => (Ok tt, log w e).

Definition get_fs : M FS := fun w => (Ok (fs w), w).

Definition put_fs (f : FS) : M unit := fun w => (Ok tt, set_fs w f).

(** [os.getcwd()] *)
Definition getcwd : M string := fun w => (Ok (cwd w), w).

(** [os.path.isdir], [os.path.isfile], [os.path.exists] *)
Definition isdir_fs (f : FS) (p : string) : bool := bool_decide (is_Some (dirs f !! p)).
Definition isfile_fs (f : FS) (p : string) : bool := bool_decide (is_Some (files f !! p)).
Definition isdir (p : string) : M bool := let! f := get_fs in ret (isdir_fs f p).
Definition isfile (p : string) : M bool := let! f := get_fs in ret (isfile_fs f p).
Definition exists_ (p : string) : M bool :=
  let! f := get_fs in ret (isdir_fs f p || isfile_fs f p).

(** [os.scandir(p)]: the entries of the directory, or an [OSError]. *)
Definition scandir (p : string) : M (list dirent) :=
  let! _ := log_event (EvScanDir p) in
  let! f := get_fs in
  match dirs f !! p with
  | Some es => ret es
  | None => raise (OSError p)
  end.

(** [os.path.getsize(p)] *)
Definition getsize (p : string) : M Z :=
  let! _ := log_event (EvGetSize p) in
  let! f := get_fs in
  match files f !! p with
  | Some x => ret (st_size x)
  | None => raise (OSError p)
  end.

(** The lines of [open(p, 'r')], all read before any is used. *)
Definition read_lines (p : string) : M (list string) :=
  let! f := get_fs in
  match files f !! p with
  | Some x =>
      match content x with
      | Lines ls => ret ls
      | Unreadable => raise (OSError p)
      | Undecodable => raise UnicodeDecodeError
      end
  | None => raise (OSError p)
  end.

(** The root directory, however many separators spell it. *)
Definition is_root (p : string) : bool :=
  Str.truthy p && forallb (Ascii.eqb PosixPath.sep) (Str.chars p).

Definition exists_fs (f : FS) (p : string) : bool := isdir_fs f p || isfile_fs f p.

(** The head and the tail [os.makedirs] splits a name into: the tail is the
    last component, a final separator set aside. *)
Definition split_dir (p : string) : string * string :=
  let (head, tail) := PosixPath.split p in
  if Str.truthy tail then (head, tail) else PosixPath.split head.

(** The spelling of a directory with one separator before its last component
    and none after it. *)
Definition plain (p : string) : string :=
  let (head, tail) := split_dir p in PosixPath.join head tail.

(** The spellings a new directory is entered under: the one it is made
    with, its plain spelling, and that one followed by a separator. *)
Definition spellings (p : string) : list string := [p; plain p; plain p +:+ "/"].

(** An empty directory entered under [k], unless [k] is known already. *)
Definition enter (ds : gmap string (list dirent)) (k : string) : gmap string (list dirent) :=
  match ds !! k with
  | Some _ => ds
  | None => <[k := []]> ds
  end.

(** [os.mkdir(p)]: [p] must not exist and its parent must be a directory
    (the working directory, for a name without directory part).  The new
    directory is empty, and it is listed in its parent when the listing of
    the parent is known. *)
Definition mkdir_fs (f : FS) (p : string) : option FS :=
  let (head, tail) := split_dir p in
  if negb (Str.truthy p) || is_root p || exists_fs f p || exists_fs f (plain p) then None
  else if Str.truthy head && negb (is_root head || isdir_fs f head) then None
  else
    let listed :=
      match dirs f !! head with
      | Some es => <[head := es ++ [{| name := tail; kind := KDir |}]]> (dirs f)
      | None => dirs f
      end in
    Some {| dirs := foldl enter listed (spellings p); files := files f |}.

(** [try: mkdir(name) except OSError: if not path.isdir(name): raise], the
    end of [os.makedirs]: a failure of [os.mkdir] is passed over when the
    name is a directory, be it under another spelling. *)
Definition mkdir_exist_ok (f : FS) (p : string) : option FS :=
  match mkdir_fs f p with
  | Some f' => Some f'
  | None =>
      if isdir_fs f p then Some f
      else if is_root p || isdir_fs f (plain p)
      then Some {| dirs := <[p := default [] (dirs f !! plain p)]> (dirs f);
                   files := files f |}
      else None
  end.

(** [os.makedirs(p, exist_ok=True)] on a name that does not exist: the
    missing parents are created first, by the same function; [None] stands
    for the exception it ends with.  [fuel] bounds the depth of the
    recursion, and the length of [p] is enough. *)
Fixpoint makedirs_fs (fuel : nat) (f : FS) (p : string) : option FS :=
  match fuel with
  | O => None
  | S k =>
      let (head, tail) := split_dir p in
      if Str.truthy head && Str.truthy tail && negb (is_root head || exists_fs f head)
      then
        match makedirs_fs k f head with
        | Some f1 =>
            if String.eqb tail "." then
              Some {| dirs := <[p := default [] (dirs f1 !! head)]> (dirs f1);
                      files := files f1 |}
            else mkdir_exist_ok f1 p
        | None => None
        end
      else mkdir_exist_ok f p
  end.

(** [os.makedirs(p, exist_ok=True)], in a file system where what exists has
    a parent directory: nothing changes when [p] is a directory already; it
    fails when [p] is a regular file; otherwise [p] is created with the
    parents it misses, which fails when one of them is a regular file.
    Access rights are not part of the file system here. *)
Definition makedirs (p : string) : M unit :=
  let! _ := log_event (EvMakeDirs p) in
  let! f := get_fs in
  if isdir_fs f p then ret tt
  else if isfile_fs f p then raise (OSError p)
  else
    match makedirs_fs (S (String.length p)) f p with
    | Some f' => put_fs f'
    | None => raise (OSError p)
    end.

(** [x / d] as the interpreter runs it: [ZeroDivisionError] when [d] is 0. *)
Definition py_truediv {F} `{!PyFloat F} (x : num F) (d : Z) : M (num F) :=
  if d =? 0 then raise ZeroDivisionError else ret (py_div x d).

(** Truth value of an [int]. *)
Definition int_truthy (n : Z) : bool := negb (n =? 0).

(** [try: c except Exception: h]; [SystemExit] is not an [Exception]. *)
Definition try_except {A} (c : M A) (h : exn -> M A) : M A :=
  fun w =>
    match c w with
    | (Raise (SystemExit n), w') => (Raise (SystemExit n), w')
    | (Raise e, w') => h e w'
    | (Ok a, w') => (Ok a, w')
    end.

(** ** The program *)

Section Program.

Context {F : Type} `{!PyFloat F}.

(** The external encoder: [cwebp -lossless ... input -o output] run on a file
    system gives the elapsed time when it exits with status 0, [None] when
    it fails (or cannot be started), and the file system it leaves. *)
Variable cwebp : FS -> string -> string -> option F * FS.

(** [name.lower().endswith(('.tif', '.tiff'))] *)
Definition is_tiff_name (n : string) : bool :=
  Str.endswith (Str.lower n) ".tif" || Str.endswith (Str.lower n) ".tiff".

(** [name.lower().endswith('.webp')] *)
Definition is_webp_name (n : string) : bool :=
  Str.endswith (Str.lower n) ".webp".

(** [entry.path] of an entry yielded by [os.scandir(d)] *)
Definition entry_path (d : string) (e : dirent) : string :=
  PosixPath.join d (name e).

(** The inner loop of [find_tiff_dirs] over the iterator of a directory's
    entries: the value of [has_tiff] and the entries left unread in the
    iterator when the loop ends ([break] at the first TIFF file). *)
Fixpoint has_tiff_loop (it : list dirent) : bool * list dirent :=
  match it with
  | [] => (false, [])
  | file_entry :: rest =>
      if is_file file_entry && is_tiff_name (name file_entry)
      then (true, rest)
      else has_tiff_loop rest
  end.

Definition find_tiff_dirs_step (root_path : string) (tiff_dirs : list string)
    (entry : dirent) : M (list string) :=
  if negb (is_dir entry) then ret tiff_dirs
  else
    let! it := scandir (entry_path root_path entry) in
    let has_tiff := fst (has_tiff_loop it) in
    ret (if has_tiff then tiff_dirs ++ [entry_path root_path entry] else tiff_dirs).

Definition find_tiff_dirs (root_path : string) : M (list string) :=
  let! entries := scandir root_path in
  for_ entries [] (find_tiff_dirs_step root_path).

(** [convert_to_webp]: [(True, elapsed)] when the encoder succeeds; every
    failure is caught, logged and reported as [(False, 0)]. *)
Definition convert_to_webp (input_path output_path : string) : M (bool * num F) :=
  let! _ := log_event (EvEncode input_path output_path) in
  let! f := get_fs in
  match cwebp f input_path output_path with
  | (Some elapsed, f') => let! _ := put_fs f' in ret (true, Fl elapsed)
  | (None, f') => let! _ := put_fs f' in let! _ := log_event EvLogError in ret (false, I 0)
  end.

(** The tuple returned by [process_directory], with the names [main] gives
    to its components. *)
Record dir_result := {
  count : Z;
  time_spent : num F;
  ratio : num F;
  orig : Z;
  comp : Z
}.

Definition zero_result : dir_result :=
  {| count := 0; time_spent := I 0; ratio := I 0; orig := 0; comp := 0 |}.

(** Where the converted files of [tiff_dir] go. *)
Definition webp_dir_of (tiff_dir : string) (output_root : option string) : string :=
  let base_name := PosixPath.basename tiff_dir +:+ "_webp" in
  match output_root with
  | Some r =>
      if Str.truthy r then PosixPath.join r base_name
      else PosixPath.join (PosixPath.dirname tiff_dir) base_name
  | None => PosixPath.join (PosixPath.dirname tiff_dir) base_name
  end.

(** [tiff_files]: the paths of the TIFF files among the entries of
    [tiff_dir]. *)
Definition tiff_files_of (tiff_dir : string) (entries : list dirent) : list string :=
  map (entry_path tiff_dir)
      (filter (fun f => is_file f && is_tiff_name (name f)) entries).

(** [converted]: the names, without extension, of the WebP files among the
    entries of the destination. *)
Definition converted_of (entries : list dirent) : gset string :=
  list_to_set
    (map (fun f => fst (PosixPath.splitext (name f)))
         (filter (fun f => is_file f && is_webp_name (name f)) entries)).

(** [os.path.splitext(os.path.basename(f))[0]] *)
Definition stem (path : string) : string :=
  fst (PosixPath.splitext (PosixPath.basename path)).

(** [files_to_convert] when [force_convert] is false. *)
Definition not_converted (tiff_files : list string) (converted : gset string) : list string :=
  filter (fun f => bool_decide (stem f ∉ converted)) tiff_files.

(** The first part of [process_directory]: the destination is created, the
    source is listed and the files to convert are selected. *)
Definition files_to_convert (tiff_dir : string) (output_root : option string)
    (force_convert : bool) : M (list string) :=
  let webp_dir := webp_dir_of tiff_dir output_root in
  let! _ := makedirs webp_dir in
  let! entries := scandir tiff_dir in
  let tiff_files := tiff_files_of tiff_dir entries in
  if force_convert then ret tiff_files
  else
    let! dest := scandir webp_dir in
    ret (not_converted tiff_files (converted_of dest)).

(** The statistics kept by the conversion loop. *)
Record loop_state := {
  ls_total_time : num F;
  ls_success_count : Z;
  file_sizes : list (Z * Z * num F)
}.

Definition loop_init : loop_state :=
  {| ls_total_time := I 0; ls_success_count := 0; file_sizes := [] |}.

(** The path the converted file is written to. *)
Definition output_path_of (webp_dir tiff_path : string) : string :=
  let file_name := stem tiff_path +:+ ".webp" in
  PosixPath.join webp_dir file_name.

(** One iteration of the conversion loop. *)
Definition convert_one (webp_dir : string) (st : loop_state) (tiff_path : string)
    : M loop_state :=
  let output_path := output_path_of webp_dir tiff_path in
  let! orig_size := getsize tiff_path in
  let! (success, elapsed) := convert_to_webp tiff_path output_path in
  if success : bool then
    let! new_size := getsize output_path in
    let! compression_ratio := py_truediv (I new_size) orig_size in
    ret {| ls_total_time := py_add (ls_total_time st) elapsed;
           ls_success_count := ls_success_count st + 1;
           file_sizes := file_sizes st ++ [(orig_size, new_size, compression_ratio)] |}
  else ret st.

(** The statistics of the directory, from the state the loop ends in. *)
Definition directory_stats (st : loop_state) : M dir_result :=
  match file_sizes st with
  | [] =>
      ret {| count := ls_success_count st; time_spent := ls_total_time st;
             ratio := I 0; orig := 0; comp := 0 |}
  | _ =>
      let! avg_ratio :=
        py_truediv (py_sum (map (fun x => snd x) (file_sizes st)))
                   (Z.of_nat (length (file_sizes st))) in
      let total_orig := int_sum (map (fun x => fst (fst x)) (file_sizes st)) in
      let total_compressed := int_sum (map (fun x => snd (fst x)) (file_sizes st)) in
      ret {| count := ls_success_count st; time_spent := ls_total_time st;
             ratio := avg_ratio; orig := total_orig; comp := total_compressed |}
  end.

Definition process_directory (tiff_dir : string) (output_root : option string)
    (force_convert : bool) : M dir_result :=
  let webp_dir := webp_dir_of tiff_dir output_root in
  let! work := files_to_convert tiff_dir output_root force_convert in
  match work with
  | [] => ret zero_result
  | _ =>
      let! st := for_ work loop_init (convert_one webp_dir) in
      directory_stats st
  end.

(** The command line: the optional positional [target] and [-o]. *)
Record Args := { target : option string; output_dir : option string }.

(** The counters of [main]. *)
Record totals := {
  total_files : Z;
  total_time : num F;
  total_orig_size : Z;
  total_compressed_size : Z
}.

Definition totals_init : totals :=
  {| total_files := 0; total_time := I 0;
     total_orig_size := 0; total_compressed_size := 0 |}.

(** The four [+=] that follow every call of [process_directory]. *)
Definition accumulate (t : totals) (r : dir_result) : totals :=
  {| total_files := total_files t + count r;
     total_time := py_add (total_time t) (time_spent r);
     total_orig_size := total_orig_size t + orig r;
     total_compressed_size := total_compressed_size t + comp r |}.

(** What the final report prints. *)
Record summary := {
  run_totals : totals;
  avg_file_time : num F;
  compression_ratio : num F
}.

(** The output root is created when it is given and does not exist. *)
Definition ensure_output_dir (args : Args) : M unit :=
  match output_dir args with
  | Some o =>
      if Str.truthy o then
        let! there := exists_ o in
        if negb there then
          try_except (makedirs o)
            (fun _ => let! _ := log_event EvLogError in raise (SystemExit 1))
        else ret tt
      else ret tt
  | None => ret tt
  end.

(** One directory processed and added to the counters. *)
Definition process_and_add (output_root : option string) (force_convert : bool)
    (t : totals) (directory : string) : M totals :=
  let! r := process_directory directory output_root force_convert in
  ret (accumulate t r).

(** The body of the loop over the directories of a manifest. *)
Definition manifest_step (output_root : option string) (t : totals)
    (directory : string) : M totals :=
  let! d := isdir directory in
  if d : bool then process_and_add output_root false t directory
  else let! _ := log_event EvLogError in ret t.

(** [[line.strip() for line in f if line.strip()]] *)
Definition manifest_directories (lines : list string) : list string :=
  filter (fun l => Str.truthy l) (map Str.strip lines).

(** The mode without target: the subdirectories of the working directory
    that hold TIFF files. *)
Definition scan_mode (output_root : option string) : M totals :=
  let! here := getcwd in
  let! tiff_dirs := find_tiff_dirs here in
  for_ tiff_dirs totals_init (process_and_add output_root false).

(** The choice of the mode and the processing of the directories. *)
Definition run_target (args : Args) : M totals :=
  match target args with
  | Some tg =>
      if Str.truthy tg then
        let! d := isdir tg in
        if d : bool then process_and_add (output_dir args) true totals_init tg
        else
          let! f := isfile tg in
          if (f : bool) && Str.endswith tg ".txt" then
            let! lines := read_lines tg in
            for_ (manifest_directories lines) totals_init
                 (manifest_step (output_dir args))
          else
            let! _ := log_event EvLogError in
            raise (SystemExit 1)
      else scan_mode (output_dir args)
  | None => scan_mode (output_dir args)
  end.

(** The statistics derived at the end of [main]. *)
Definition summarize (t : totals) : M summary :=
  let! avg :=
    if int_truthy (total_files t)
    then py_truediv (total_time t) (total_files t)
    else ret (I 0) in
  let! cr :=
    if int_truthy (total_orig_size t)
    then py_truediv (I (total_compressed_size t)) (total_orig_size t)
    else ret (I 0) in
  ret {| run_totals := t; avg_file_time := avg; compression_ratio := cr |}.

(** [main] once [parser.parse_args()] has returned [args]. *)
Definition main (args : Args) : M summary :=
  let! _ := ensure_output_dir args in
  let! t := run_target args in
  summarize t.

(** The script for the arguments [args]: exit status 0 when [main] returns,
    the status of [sys.exit], and 1 for any other exception. *)
Definition script (args : Args) (w : World) : Z * World :=
  match main args w with
  | (Ok _, w') => (0, w')
  | (Raise (SystemExit n), w') => (n, w')
  | (Raise _, w') => (1, w')
  end.

(** What [parser.parse_args()] makes of a command line: the arguments, or
    the end of the script by [argparse] itself, after the help asked for
    with [-h] or on a command line it rejects. *)
Inductive command_line :=
  | Parsed (args : Args)
  | HelpAsked
  | Rejected.

(** [parser.parse_args()]: [argparse] leaves with status 0 after the help
    and with status 2 after a usage error. *)
Definition parse_args (c : command_line) : M Args :=
  match c with
  | Parsed args => ret args
  | HelpAsked => raise (SystemExit 0)
  | Rejected => raise (SystemExit 2)
  end.

(** [main] from its first statement. *)
Definition main_cli (c : command_line) : M summary :=
  let! args := parse_args c in
  main args.

(** The script from the command line. *)
Definition script_cli (c : command_line) (w : World) : Z * World :=
  match main_cli c w with
  | (Ok _, w') => (0, w')
  | (Raise (SystemExit n), w') => (n, w')
  | (Raise _, w') => (1, w')
  end.

End Program.

Arguments dir_result F : clear implicits.
Arguments loop_state F : clear implicits.
Arguments totals F : clear implicits.
Arguments summary F : clear implicits.

(** ** A float and two encoders to run the program on

    Exact rationals in lowest terms stand for floats in the runs below. *)

#[global] Instance QFloat : PyFloat Q := {|
  fadd x y := Qred (x + y);
  fdiv x y := Qred (x / y);
  of_int n := inject_Z n;
  int_truediv a b := Qred (inject_Z a / inject_Z b)
|}.

(** The file [out_path] listed as a regular file in its directory. *)
Definition list_file (ds : gmap string (list dirent)) (out_path : string)
    : gmap string (list dirent) :=
  let d := PosixPath.dirname out_path in
  let n := PosixPath.basename out_path in
  match ds !! d with
  | Some es =>
      if existsb (fun e => is_file e && String.eqb (name e) n) es then ds
      else <[d := es ++ [{| name := n; kind := KFile |}]]> ds
  | None => ds
  end.

(** An encoder that halves every file it is given in half a second, and
    fails on a file that does not exist or when the output path is a
    directory. *)
Definition half_encoder (f : FS) (input_path output_path : string) : option Q * FS :=
  match files f !! input_path with
  | Some x =>
      if isdir_fs f output_path then (None, f)
      else
        (Some (1 # 2)%Q,
         {| dirs := list_file (dirs f) output_path;
            files := <[output_path := {| st_size := st_size x / 2; content := Undecodable |}]> (files f) |})
  | None => (None, f)
  end.

(** An encoder that always fails. *)
Definition failing_encoder (f : FS) (input_path output_path : string) : option Q * FS :=
  (None, f).

(** ** Notions the properties are stated with *)

(** The world [makedirs p] leaves. *)
Definition after_makedirs (p : string) (w : World) : World := snd (makedirs p w).

(** The world once the output root has been dealt with. *)
Definition after_output_dir (args : Args) (w : World) : World :=
  snd (ensure_output_dir args w).

(** A TIFF file has a counterpart among the entries of the destination: a
    regular file with a WebP name whose stem is the stem of the TIFF file,
    character for character. *)
Definition has_counterpart (dest : list dirent) (tiff_path : string) : bool :=
  existsb (fun e => is_file e && is_webp_name (name e) &&
                    String.eqb (fst (PosixPath.splitext (name e))) (stem tiff_path))
          dest.

(** The same with the stems compared in lower case, which is how the
    specification words the comparison. *)
Definition has_counterpart_lower (dest : list dirent) (tiff_path : string) : bool :=
  existsb (fun e => is_file e && is_webp_name (name e) &&
                    String.eqb (Str.lower (fst (PosixPath.splitext (name e))))
                               (Str.lower (stem tiff_path)))
          dest.

(** An entry is a regular file with a TIFF name. *)
Definition is_tiff_entry (e : dirent) : bool := is_file e && is_tiff_name (name e).

(** The directory [d] holds at least one TIFF file. *)
Definition holds_tiff (f : FS) (d : string) : bool :=
  match dirs f !! d with
  | Some children => existsb is_tiff_entry children
  | None => false
  end.

(** The subdirectories, among the entries [es] of [root_path], that hold at
    least one TIFF file, in the order of the listing. *)
Definition tiff_subdirs (f : FS) (root_path : string) (es : list dirent) : list string :=
  map (entry_path root_path)
      (filter (fun e => is_dir e && holds_tiff f (entry_path root_path e)) es).

(** The statistics of the report as functions of the counters. *)
Definition summary_of {F} `{!PyFloat F} (t : totals F) : summary F :=
  {| run_totals := t;
     avg_file_time :=
       if total_files t =? 0 then I 0 else py_div (total_time t) (total_files t);
     compression_ratio :=
       if total_orig_size t =? 0 then I 0
       else py_div (I (total_compressed_size t)) (total_orig_size t) |}.

(** The results of the directories a run processes, one after the other:
    the run of [main] with the tuples [process_directory] returns kept in a
    list instead of being added to the counters. *)
Section Results.

Context {F : Type} `{!PyFloat F}.
Variable cwebp : FS -> string -> string -> option F * FS.

Definition process_and_keep (output_root : option string) (force_convert : bool)
    (rs : list (dir_result F)) (directory : string) : M (list (dir_result F)) :=
  let! r := process_directory cwebp directory output_root force_convert in
  ret (rs ++ [r]).

Definition manifest_keep (output_root : option string) (rs : list (dir_result F))
    (directory : string) : M (list (dir_result F)) :=
  let! d := isdir directory in
  if d : bool then process_and_keep output_root false rs directory
  else let! _ := log_event EvLogError in ret rs.

Definition scan_results (output_root : option string) : M (list (dir_result F)) :=
  let! here := getcwd in
  let! tiff_dirs := find_tiff_dirs here in
  for_ tiff_dirs [] (process_and_keep output_root false).

Definition run_results (args : Args) : M (list (dir_result F)) :=
  match target args with
  | Some tg =>
      if Str.truthy tg then
        let! d := isdir tg in
        if d : bool then process_and_keep (output_dir args) true [] tg
        else
          let! f := isfile tg in
          if (f : bool) && Str.endswith tg ".txt" then
            let! lines := read_lines tg in
            for_ (manifest_directories lines) [] (manifest_keep (output_dir args))
          else
            let! _ := log_event EvLogError in
            raise (SystemExit 1)
      else scan_results (output_dir args)
  | None => scan_results (output_dir args)
  end.

(** The results of a whole run, the output root created first. *)
Definition main_results (args : Args) : M (list (dir_result F)) :=
  let! _ := ensure_output_dir args in
  run_results args.

(** The counters after the results [rs]. *)
Definition totals_of (rs : list (dir_result F)) : totals F :=
  fold_left accumulate rs totals_init.

(** The outcome of a run of results turned into counters. *)
Definition to_totals (r : outcome (list (dir_result F)) * World) : outcome (totals F) * World :=
  match r with
  | (Ok rs, w') => (Ok (totals_of rs), w')
  | (Raise e, w') => (Raise e, w')
  end.

End Results.

(** What a second run needs of the encoder.  An encoding that succeeds
    lists its output, as a regular file, in the directory of the output. *)
Definition lists_output {F} (cwebp : FS -> string -> string -> option F * FS) : Prop :=
  forall f i o t f' es,
    cwebp f i o = (Some t, f') ->
    dirs f !! PosixPath.dirname o = Some es ->
    exists es', dirs f' !! PosixPath.dirname o = Some es' /\
                {| name := PosixPath.basename o; kind := KFile |} ∈ es'.

(** An encoding, successful or not, removes no directory and no regular
    file from a listing. *)
Definition keeps_files {F} (cwebp : FS -> string -> string -> option F * FS) : Prop :=
  forall f i o r f' d es,
    cwebp f i o = (r, f') ->
    dirs f !! d = Some es ->
    exists es', dirs f' !! d = Some es' /\
                forall e, e ∈ es -> is_file e = true -> e ∈ es'.

(** An encoding whose output goes to another directory leaves the listing
    of [tiff_dir] as it is. *)
Definition keeps_listing {F} (cwebp : FS -> string -> string -> option F * FS)
    (tiff_dir : string) : Prop :=
  forall f i o r f',
    cwebp f i o = (r, f') ->
    PosixPath.dirname o <> tiff_dir ->
    dirs f' !! tiff_dir = dirs f !! tiff_dir.

(** The encoder calls among the events of a trace, in order. *)
Definition is_encode (e : event) : bool :=
  match e with EvEncode _ _ => true | _ => false end.

Definition encodes (tr : list event) : list event := filter (fun e => is_encode e) tr.

(** A computation that leaves the script, if it does, with the status
    [code] only. *)
Definition exits_only_with {A} (code : Z) (c : M A) : Prop :=
  forall w n w', c w = (Raise (SystemExit n), w') -> n = code.

(** A run of [codes]: some of them, one after the other. *)
Inductive code_run (codes : list (list ascii)) : list ascii -> Prop :=
  | code_run_nil : code_run codes []
  | code_run_cons b l : b ∈ codes -> code_run codes l -> code_run codes (b ++ l).

(** A run of white space: blank code points one after the other. *)
Definition blank_run (l : list ascii) : Prop := code_run Str.blank_codes l.

(** No code is the beginning of another one, and none is empty. *)
Definition prefix_free (codes : list (list ascii)) : bool :=
  forallb (fun b => negb (bool_decide (b = [])) &&
                    forallb (fun c => implb (bool_decide (b `prefix_of` c))
                                            (bool_decide (b = c))) codes) codes.

(** The characters [l] start, or end, with a blank code point. *)
Definition starts_blank (l : list ascii) : Prop :=
  exists b r, b ∈ Str.blank_codes /\ l = b ++ r.
Definition ends_blank (l : list ascii) : Prop :=
  exists b r, b ∈ Str.blank_codes /\ l = r ++ b.

(** A name ends with [ext] when case is ignored: it is some text followed
    by [ext] written in any mix of upper and lower case. *)
Definition ends_with_ignoring_case (n ext : string) : Prop :=
  exists s x, n = s +:+ x /\ Str.lower x = ext.

(** A TIFF source file, in the words of the specification: a regular file
    whose name ends, case ignored, with ".tif" or ".tiff". *)
Definition tiff_source (e : dirent) : Prop :=
  kind e = KFile /\
  (ends_with_ignoring_case (name e) ".tif" \/ ends_with_ignoring_case (name e) ".tiff").

(** [sel] is [l] without the elements that do not satisfy [P], order and
    repetitions kept. *)
Inductive selects {A : Type} (P : A -> Prop) : list A -> list A -> Prop :=
  | selects_nil : selects P [] []
  | selects_keep x l sel : P x -> selects P l sel -> selects P (x :: l) (x :: sel)
  | selects_drop x l sel : ~ P x -> selects P l sel -> selects P (x :: l) sel.

(** ** Sample worlds *)

Definition regular (n : string) : dirent := {| name := n; kind := KFile |}.
Definition subdir (n : string) : dirent := {| name := n; kind := KDir |}.
Definition sized (n : Z) : file := {| st_size := n; content := Undecodable |}.

(** [/work/scans] holds [a.tif] (1000 bytes), [b.tiff] (2000 bytes) and a
    text file; nothing is converted yet. *)
Definition scans_fs : FS :=
  {| dirs := {[ "/work" := [subdir "scans"; regular "notes.txt"];
                "/work/scans" := [regular "a.tif"; regular "b.tiff"; regular "readme.md"] ]};
     files := {[ "/work/scans/a.tif" := sized 1000;
                 "/work/scans/b.tiff" := sized 2000;
                 "/work/scans/readme.md" := sized 10;
                 "/work/notes.txt" := sized 3 ]} |}.

Definition scans_world : World := {| fs := scans_fs; cwd := "/work"; trace := [] |}.

(** [/work/scans] holds [A.tif]; the destination holds [a.webp]. *)
Definition mixed_case_fs : FS :=
  {| dirs := {[ "/work/scans" := [regular "A.tif"];
                "/work/scans_webp" := [regular "a.webp"] ]};
     files := {[ "/work/scans/A.tif" := sized 1000;
                 "/work/scans_webp/a.webp" := sized 400 ]} |}.

Definition mixed_case_world : World :=
  {| fs := mixed_case_fs; cwd := "/work"; trace := [] |}.

(** [/work/scans] holds three TIFF files; [a.tif] is converted, and the
    destination also holds [c.webp], in lower case, next to [C.TIF]. *)
Definition partial_fs : FS :=
  {| dirs := {[ "/work/scans" := [regular "a.tif"; regular "b.tiff"; regular "C.TIF"];
                "/work/scans_webp" := [regular "a.webp"; regular "c.webp"; subdir "b.webp"] ]};
     files := {[ "/work/scans/a.tif" := sized 1000;
                 "/work/scans/b.tiff" := sized 2000;
                 "/work/scans/C.TIF" := sized 3000;
                 "/work/scans_webp/a.webp" := sized 400;
                 "/work/scans_webp/c.webp" := sized 900 ]} |}.

Definition partial_world : World := {| fs := partial_fs; cwd := "/work"; trace := [] |}.

(** [/work/scans] with both of its TIFF files converted. *)
Definition done_fs : FS :=
  {| dirs := {[ "/work/scans" := [regular "a.tif"; regular "b.tiff"];
                "/work/scans_webp" := [regular "a.webp"; regular "b.webp"] ]};
     files := {[ "/work/scans/a.tif" := sized 1000;
                 "/work/scans/b.tiff" := sized 2000;
                 "/work/scans_webp/a.webp" := sized 500;
                 "/work/scans_webp/b.webp" := sized 1000 ]} |}.

Definition done_world : World := {| fs := done_fs; cwd := "/work"; trace := [] |}.

(** [/work] with a directory of scans, an empty directory, a directory
    whose TIFF files are one level further down, and a file. *)
Definition tree_fs : FS :=
  {| dirs := {[ "/work" := [subdir "scans"; regular "x.tif"; subdir "empty"; subdir "deep"];
                "/work/scans" := [regular "readme.md"; subdir "old.tif"; regular "a.TIF";
                                  regular "b.tiff"];
                "/work/empty" := [];
                "/work/deep" := [subdir "inner"; regular "tif"];
                "/work/deep/inner" := [regular "c.tif"] ]};
     files := {[ "/work/scans/a.TIF" := sized 1000;
                 "/work/scans/b.tiff" := sized 2000;
                 "/work/deep/inner/c.tif" := sized 3000 ]} |}.

Definition tree_world : World := {| fs := tree_fs; cwd := "/work"; trace := [] |}.

(** An encoder that halves a file of less than 1500 bytes and leaves a
    tenth of a larger one, in half a second. *)
Definition uneven_encoder (f : FS) (input_path output_path : string) : option Q * FS :=
  match files f !! input_path with
  | Some x =>
      let n := if st_size x <? 1500 then st_size x / 2 else st_size x / 10 in
      (Some (1 # 2)%Q,
       {| dirs := list_file (dirs f) output_path;
          files := <[output_path := {| st_size := n; content := Undecodable |}]> (files f) |})
  | None => (None, f)
  end.

(** Two directories of one TIFF file each, and a manifest that names them,
    a blank line and a directory that does not exist. *)
Definition batch_fs : FS :=
  {| dirs := {[ "/work" := [subdir "a"; subdir "b"; regular "list.txt"];
                "/work/a" := [regular "small.tif"];
                "/work/b" := [regular "large.tif"] ]};
     files := {[ "/work/a/small.tif" := sized 1000;
                 "/work/b/large.tif" := sized 3000;
                 "/work/list.txt" :=
                   {| st_size := 40;
                      content := Lines ["/work/a" +:+ String "010" "";
                                        String "010" "";
                                        "  /nonexistent " +:+ String "010" "";
                                        "/work/b"] |} ]} |}.

Definition batch_world : World := {| fs := batch_fs; cwd := "/work"; trace := [] |}.

Definition batch_args : Args := {| target := Some "/work/list.txt"; output_dir := None |}.

(** [/work/scans] holds a TIFF file of 0 bytes before another one. *)
Definition empty_file_fs : FS :=
  {| dirs := {[ "/work/scans" := [regular "e.tif"; regular "b.tif"];
                "/work/scans_webp" := [] ]};
     files := {[ "/work/scans/e.tif" := sized 0;
                 "/work/scans/b.tif" := sized 2000 ]} |}.

Definition empty_file_world : World :=
  {| fs := empty_file_fs; cwd := "/work"; trace := [] |}.

(** The path of the destination of [/work/scans] is taken by a file. *)
Definition blocked_fs : FS :=
  {| dirs := {[ "/work" := [subdir "scans"; regular "scans_webp"];
                "/work/scans" := [regular "a.tif"] ]};
     files := {[ "/work/scans/a.tif" := sized 1000;
                 "/work/scans_webp" := sized 5 ]} |}.

Definition blocked_world : World := {| fs := blocked_fs; cwd := "/work"; trace := [] |}.

(** [/work] with a directory that cannot be listed between two that can. *)
Definition locked_fs : FS :=
  {| dirs := {[ "/work" := [subdir "scans"; subdir "locked"; subdir "more"];
                "/work/scans" := [regular "a.tif"];
                "/work/more" := [regular "m.tif"] ]};
     files := {[ "/work/scans/a.tif" := sized 1000;
                 "/work/more/m.tif" := sized 1000 ]} |}.

Definition locked_world : World := {| fs := locked_fs; cwd := "/work"; trace := [] |}.

(** A manifest whose lines name nothing that exists. *)
Definition stale_fs : FS :=
  {| dirs := {[ "/work" := [regular "old.txt"] ]};
     files := {[ "/work/old.txt" :=
                   {| st_size := 30;
                      content := Lines ["/gone/a" +:+ String "013" (String "010" "");
                                        "   " +:+ String "010" "";
                                        String "009" "/gone/b  "] |} ]} |}.

Definition stale_world : World := {| fs := stale_fs; cwd := "/work"; trace := [] |}.

(** * The model at work *)

Example splitext_1 : PosixPath.splitext "a.b.tif" = ("a.b", ".tif").
Proof. vm_compute. reflexivity. Qed.
Example splitext_2 : PosixPath.splitext ".tif" = (".tif", "").
Proof. vm_compute. reflexivity. Qed.
Example splitext_3 : PosixPath.splitext "d.x/..tif" = ("d.x/..tif", "").
Proof. vm_compute. reflexivity. Qed.
Example splitext_4 : PosixPath.splitext "d.x/a" = ("d.x/a", "").
Proof. vm_compute. reflexivity. Qed.
Example splitext_5 : PosixPath.splitext "d/.a.TIF" = ("d/.a", ".TIF").
Proof. vm_compute. reflexivity. Qed.
Example join_1 : PosixPath.join "a" "b" = "a/b".
Proof. vm_compute. reflexivity. Qed.
Example join_2 : PosixPath.join "a/" "b" = "a/b".
Proof. vm_compute. reflexivity. Qed.
Example join_3 : PosixPath.join "" "b" = "b".
Proof. vm_compute. reflexivity. Qed.
Example join_4 : PosixPath.join "a" "/b" = "/b".
Proof. vm_compute. reflexivity. Qed.
Example dirname_1 : PosixPath.dirname "/a/b" = "/a".
Proof. vm_compute. reflexivity. Qed.
Example dirname_2 : PosixPath.dirname "/a" = "/".
Proof. vm_compute. reflexivity. Qed.
Example dirname_3 : PosixPath.dirname "a" = "".
Proof. vm_compute. reflexivity. Qed.
Example dirname_4 : PosixPath.dirname "a//b" = "a".
Proof. vm_compute. reflexivity. Qed.
Example dirname_5 : PosixPath.dirname "a/b/" = "a/b".
Proof. vm_compute. reflexivity. Qed.
Example basename_1 : PosixPath.basename "a/b/" = "".
Proof. vm_compute. reflexivity. Qed.
Example basename_2 : PosixPath.basename "a/b.tif" = "b.tif".
Proof. vm_compute. reflexivity. Qed.
Example lower_1 : Str.lower "A.TiF[@" = "a.tif[@".
Proof. vm_compute. reflexivity. Qed.
Example ends_1 : Str.endswith "a.tif" ".tif" = true.
Proof. vm_compute. reflexivity. Qed.
Example ends_2 : Str.endswith "tif" ".tif" = false.
Proof. vm_compute. reflexivity. Qed.
Example strip_1 : Str.strip ("  /a b " +:+ String "010" "") = "/a b".
Proof. vm_compute. reflexivity. Qed.
(** A no-break space (U+00A0) before and an ideographic space (U+3000)
    after. *)
Example strip_2 :
  Str.strip (String "194" (String "160" "/a") +:+
             String "227" (String "128" (String "128" (String "013" ""))))
  = "/a".
Proof. vm_compute. reflexivity. Qed.

(** An output root below a regular file cannot be created: the error is
    logged and the script ends with status 1. *)
Example output_root_below_a_file :
  let r := script half_encoder
             {| target := Some "/work/scans"; output_dir := Some "/work/notes.txt/out" |}
             scans_world in
  fst r = 1 /\ trace (snd r) = [EvMakeDirs "/work/notes.txt/out"; EvLogError] /\
  fs (snd r) = scans_fs.
Proof. vm_compute. repeat split; reflexivity. Qed.

(** An output root is created with the parents it misses. *)
Example output_root_with_parents :
  let w := after_output_dir {| target := None; output_dir := Some "/srv/out/webp" |}
                            scans_world in
  isdir_fs (fs w) "/srv" = true /\ isdir_fs (fs w) "/srv/out" = true /\
  isdir_fs (fs w) "/srv/out/webp" = true /\ isdir_fs (fs w) "/srv/out/webp/" = true /\
  trace w = [EvMakeDirs "/srv/out/webp"].
Proof. vm_compute. repeat split; reflexivity. Qed.

(** The scenario of the specification: [a.tif] of 1000 bytes and [b.tiff] of
    2000 bytes, an empty destination, an encoder that halves in half a
    second. *)
Example scans_scenario :
  fst (process_directory half_encoder "/work/scans" None false scans_world)
  = Ok {| count := 2; time_spent := Fl 1%Q; ratio := Fl (1 # 2)%Q;
          orig := 3000; comp := 1500 |}.
Proof. vm_compute. reflexivity. Qed.

(** A manifest with a directory that does not exist: the others are
    processed and the script ends with status 0. *)
Example manifest_scenario :
  fst (script uneven_encoder batch_args batch_world) = 0.
Proof. vm_compute. reflexivity. Qed.

(** * Facts about strings and paths *)

Section StringFacts.

Lemma chars_of_chars l : Str.chars (Str.of_chars l) = l.
Proof. apply list_ascii_of_string_of_list_ascii. Qed.

Lemma of_chars_chars s : Str.of_chars (Str.chars s) = s.
Proof. apply string_of_list_ascii_of_string. Qed.

Lemma chars_inj a b : Str.chars a = Str.chars b -> a = b.
Proof.
  intros E. rewrite <- (of_chars_chars a), <- (of_chars_chars b). now rewrite E.
Qed.

Lemma chars_app a b : Str.chars (a +:+ b) = Str.chars a ++ Str.chars b.
Proof.
  unfold Str.chars. induction a as [|c a IH]; simpl; [reflexivity|].
  now rewrite IH.
Qed.

(** [rfind] finds the last occurrence. *)
Lemma rfind_chars_spec c l :
  (Str.rfind_chars c l = -1 /\ (c ∉ l)) \/
  (exists pre post, l = pre ++ c :: post /\ (c ∉ post) /\
                    Str.rfind_chars c l = Z.of_nat (length pre)).
Proof.
  induction l as [|x t IH]; simpl.
  - left. split; [reflexivity|]. apply not_elem_of_nil.
  - destruct IH as [[E N]|(pre & post & -> & N & E)]; rewrite E.
    + simpl. destruct (Ascii.eqb_spec x c) as [->|Hne].
      * right. exists [], t. simpl. auto.
      * left. split; [reflexivity|]. rewrite not_elem_of_cons. split; congruence.
    + right. exists (x :: pre), post. split; [reflexivity|]. split; [assumption|].
      destruct (0 <=? Z.of_nat (length pre)) eqn:Hle; [simpl length; lia|].
      apply Z.leb_gt in Hle. lia.
Qed.

Lemma rfind_chars_notin c l : c ∉ l -> Str.rfind_chars c l = -1.
Proof.
  intros N. destruct (rfind_chars_spec c l) as [[E _]|(pre & post & -> & _ & _)];
    [assumption|].
  exfalso. apply N. apply elem_of_app. right. apply elem_of_cons. now left.
Qed.

Lemma rfind_chars_app_last c pre post :
  c ∉ post -> Str.rfind_chars c (pre ++ c :: post) = Z.of_nat (length pre).
Proof.
  intros N. induction pre as [|x pre IH]; simpl.
  - rewrite (rfind_chars_notin _ _ N). simpl. now rewrite Ascii.eqb_refl.
  - rewrite IH. destruct (0 <=? Z.of_nat (length pre)) eqn:Hle; [lia|].
    apply Z.leb_gt in Hle. lia.
Qed.

Lemma drop_after {A} (pre post : list A) c :
  drop (Z.to_nat (Z.of_nat (length pre) + 1)) (pre ++ c :: post) = post.
Proof.
  replace (Z.to_nat (Z.of_nat (length pre) + 1)) with (length (pre ++ [c])).
  - now rewrite (cons_middle c pre post), app_assoc, drop_app_length.
  - rewrite length_app. cbn [length]. lia.
Qed.

Lemma take_after {A} (pre post : list A) c :
  take (Z.to_nat (Z.of_nat (length pre) + 1)) (pre ++ c :: post) = pre ++ [c].
Proof.
  replace (Z.to_nat (Z.of_nat (length pre) + 1)) with (length (pre ++ [c])).
  - change (pre ++ c :: post) with (pre ++ [c] ++ post).
    now rewrite app_assoc, take_app_length.
  - rewrite length_app. cbn [length]. lia.
Qed.

Lemma take_upto {A} (pre post : list A) :
  take (Z.to_nat (Z.of_nat (length pre))) (pre ++ post) = pre.
Proof. rewrite Nat2Z.id. apply take_app_length. Qed.

(** The characters of [basename p]: all of [p] without separator, or what
    follows the last one. *)
Lemma basename_chars p :
((PosixPath.sep ∉ Str.chars p) /\ PosixPath.basename p = p) \/
  (exists pre, Str.chars p = pre ++ PosixPath.sep :: Str.chars (PosixPath.basename p)).
Proof.
  unfold PosixPath.basename, Str.slice_from, Str.rfind.
  destruct (rfind_chars_spec PosixPath.sep (Str.chars p)) as [[E N]|(pre & post & Hp & N & E)].
  - left. split; [assumption|]. rewrite E. simpl. apply of_chars_chars.
  - right. exists pre. now rewrite E, chars_of_chars, Hp, drop_after.
Qed.

Lemma basename_no_sep p : PosixPath.sep ∉ Str.chars (PosixPath.basename p).
Proof.
  unfold PosixPath.basename, Str.slice_from, Str.rfind.
  destruct (rfind_chars_spec PosixPath.sep (Str.chars p)) as [[E N]|(pre & post & Hp & N & E)];
    rewrite E, chars_of_chars.
  - simpl. assumption.
  - now rewrite Hp, drop_after.
Qed.

(** [basename] keeps the last character of a path that does not end with a
    separator. *)
Lemma basename_last p c :
  last (Str.chars p) = Some c -> c <> PosixPath.sep ->
  last (Str.chars (PosixPath.basename p)) = Some c.
Proof.
  intros L Hc. destruct (basename_chars p) as [[_ ->]|[pre E]]; [assumption|].
  rewrite E, last_app, last_cons in L.
  destruct (last (Str.chars (PosixPath.basename p))); congruence.
Qed.

Lemma basename_of_nosep p : PosixPath.sep ∉ Str.chars p -> PosixPath.basename p = p.
Proof.
  intros N. unfold PosixPath.basename, Str.slice_from, Str.rfind.
  rewrite (rfind_chars_notin _ _ N). simpl. apply of_chars_chars.
Qed.

Lemma basename_of_app p pre post :
  Str.chars p = pre ++ PosixPath.sep :: post -> PosixPath.sep ∉ post ->
  PosixPath.basename p = Str.of_chars post.
Proof.
  intros E N. unfold PosixPath.basename, Str.slice_from, Str.rfind.
  now rewrite E, (rfind_chars_app_last _ _ _ N), drop_after.
Qed.

Lemma truthy_chars s : Str.truthy s = true <-> Str.chars s <> [].
Proof. destruct s; simpl; split; congruence. Qed.

Lemma startswith_sep_elem n :
  Str.startswith n "/" = true -> PosixPath.sep ∈ Str.chars n.
Proof.
  unfold Str.startswith. intros H. apply bool_decide_eq_true in H.
  destruct H as [k ->]. simpl. apply elem_of_cons. now left.
Qed.

Lemma endswith_sep d :
  Str.endswith d "/" = true -> exists k, Str.chars d = k ++ [PosixPath.sep].
Proof.
  unfold Str.endswith. intros H. apply bool_decide_eq_true in H.
  destruct H as [k ->]. now exists k.
Qed.

(** The three shapes of [join a b]. *)
Lemma join_cases a b :
  PosixPath.join a b = b \/
  Str.chars (PosixPath.join a b) = Str.chars a ++ Str.chars b \/
  Str.chars (PosixPath.join a b) = Str.chars a ++ PosixPath.sep :: Str.chars b.
Proof.
  unfold PosixPath.join. destruct (Str.startswith b "/"); [now left|].
  destruct (negb (Str.truthy a) || Str.endswith a "/").
  - right. left. apply chars_app.
  - right. right. now rewrite !chars_app.
Qed.

(** The name of an entry is the base name of its path. *)
Lemma basename_join d n :
  PosixPath.sep ∉ Str.chars n -> PosixPath.basename (PosixPath.join d n) = n.
Proof.
  intros N. unfold PosixPath.join.
  destruct (Str.startswith n "/") eqn:Hs.
  { exfalso. now apply N, startswith_sep_elem. }
  destruct (negb (Str.truthy d) || Str.endswith d "/") eqn:Hc.
  - apply orb_true_iff in Hc as [Hc|Hc].
    + destruct d; [|discriminate]. simpl. now apply basename_of_nosep.
    + apply endswith_sep in Hc as [k Hk].
      rewrite (basename_of_app _ k (Str.chars n)); [apply of_chars_chars| |assumption].
      now rewrite chars_app, Hk, <- app_assoc.
  - rewrite (basename_of_app _ (Str.chars d) (Str.chars n));
      [apply of_chars_chars| |assumption].
    now rewrite !chars_app.
Qed.

Lemma join_last d n c :
  last (Str.chars n) = Some c -> last (Str.chars (PosixPath.join d n)) = Some c.
Proof.
  intros L. destruct (join_cases d n) as [->|[E|E]]; [assumption| |]; rewrite E.
  - now rewrite last_app, L.
  - now rewrite last_app, last_cons, L.
Qed.

Lemma lstrip_char_ne c x l : x <> c -> Str.lstrip_char c (x :: l) = x :: l.
Proof. intros H. simpl. now apply Ascii.eqb_neq in H as ->. Qed.

(** The directory of an entry's path is the directory that was listed, when
    its name does not end with a separator. *)
Lemma dirname_join d n c :
  last (Str.chars d) = Some c -> c <> PosixPath.sep ->
  PosixPath.sep ∉ Str.chars n ->
  PosixPath.dirname (PosixPath.join d n) = d.
Proof.
  intros L Hc N. apply last_Some in L as [k Hk].
  assert (Hj : Str.chars (PosixPath.join d n) = Str.chars d ++ PosixPath.sep :: Str.chars n).
  { unfold PosixPath.join. destruct (Str.startswith n "/") eqn:Hs.
    { exfalso. now apply N, startswith_sep_elem. }
    destruct (negb (Str.truthy d) || Str.endswith d "/") eqn:Hcond.
    - exfalso. apply orb_true_iff in Hcond as [H|H].
      + apply negb_true_iff in H. destruct d; [|discriminate].
        simpl in Hk. now destruct k.
      + apply endswith_sep in H as [k' Hk']. rewrite Hk in Hk'.
        apply app_inj_tail in Hk' as [_ ?]. contradiction.
    - now rewrite !chars_app. }
  unfold PosixPath.dirname, Str.slice_to, Str.rfind.
  rewrite Hj, (rfind_chars_app_last _ _ _ N).
  rewrite take_after.
  assert (Ht : Str.truthy (Str.of_chars (Str.chars d ++ [PosixPath.sep])) = true).
  { apply truthy_chars. rewrite chars_of_chars. now destruct (Str.chars d). }
  assert (Hf : forallb (Ascii.eqb PosixPath.sep)
                 (Str.chars (Str.of_chars (Str.chars d ++ [PosixPath.sep]))) = false).
  { rewrite chars_of_chars, Hk, !forallb_app. cbn [forallb].
    destruct (Ascii.eqb_spec PosixPath.sep c) as [E|_]; [congruence|].
    now rewrite !andb_false_r. }
  rewrite Ht, Hf. cbn [andb negb].
  unfold Str.rstrip_char. rewrite chars_of_chars, rev_app_distr.
  cbn [rev app Str.lstrip_char].
  rewrite Ascii.eqb_refl, Hk, rev_app_distr. cbn [rev app].
  rewrite (lstrip_char_ne _ _ _ Hc). cbn [rev]. rewrite rev_involutive, <- Hk.
  apply of_chars_chars.
Qed.

Lemma forallb_false_elem {A} (f : A -> bool) l :
  forallb f l = false -> exists x, x ∈ l /\ f x = false.
Proof.
  induction l as [|y l IH]; cbn [forallb]; [discriminate|].
  destruct (f y) eqn:Hy; cbn [andb]; intros H.
  - destruct (IH H) as (x & Hx & Hf). exists x. split; [|assumption].
    apply elem_of_cons. now right.
  - exists y. split; [apply elem_of_cons; now left|assumption].
Qed.

(** [splitext] cuts at the last dot of a name that has no separator and
    does not consist of dots before it. *)
Lemma splitext_stem_ext b e :
  PosixPath.sep ∉ Str.chars b -> PosixPath.sep ∉ Str.chars e ->
  PosixPath.extsep ∉ Str.chars e ->
  (exists x, x ∈ Str.chars b /\ x <> PosixPath.extsep) ->
  PosixPath.splitext (b +:+ "." +:+ e) = (b, "." +:+ e).
Proof.
  intros Nb Ne Nd (x & Hx & Hxd).
  assert (Hc : Str.chars (b +:+ "." +:+ e) = Str.chars b ++ PosixPath.extsep :: Str.chars e)
    by now rewrite !chars_app.
  unfold PosixPath.splitext, Str.rfind, Str.slice, Str.slice_to, Str.slice_from.
  rewrite Hc, (rfind_chars_app_last _ _ _ Nd).
  rewrite (rfind_chars_notin PosixPath.sep).
  2:{ rewrite elem_of_app, elem_of_cons. intros [?|[?|?]]; [auto|discriminate|auto]. }
  assert (Hlt : (-1 <? Z.of_nat (length (Str.chars b))) = true) by (apply Z.ltb_lt; lia).
  rewrite Hlt. change (Z.to_nat (-1 + 1)) with 0%nat.
  rewrite Nat.sub_0_r, drop_0, take_upto, chars_of_chars.
  assert (Hf : forallb (Ascii.eqb PosixPath.extsep) (Str.chars b) = false).
  { destruct (forallb _ _) eqn:Hall; [|reflexivity]. exfalso.
    rewrite forallb_forall in Hall. apply Hxd. symmetry.
    apply Ascii.eqb_eq, Hall. now apply list_elem_of_In. }
  rewrite Hf. f_equal.
  - apply of_chars_chars.
  - rewrite Nat2Z.id, drop_app_length. apply chars_inj.
    now rewrite chars_of_chars, chars_app.
Qed.

(** What [splitext] keeps of a name without separator that ends with a
    character other than a dot: no separator, and not only dots. *)
Lemma splitext_fst_good bn c :
  PosixPath.sep ∉ Str.chars bn -> last (Str.chars bn) = Some c ->
  c <> PosixPath.extsep ->
  (PosixPath.sep ∉ Str.chars (fst (PosixPath.splitext bn))) /\
  (exists x, x ∈ Str.chars (fst (PosixPath.splitext bn)) /\ x <> PosixPath.extsep).
Proof.
  intros N L Hc.
  assert (Hwhole : (PosixPath.sep ∉ Str.chars bn) /\
                   (exists x, x ∈ Str.chars bn /\ x <> PosixPath.extsep)).
  { split; [assumption|]. exists c. split; [|assumption].
    apply last_Some in L as [k ->]. apply elem_of_app. right. apply elem_of_cons. now left. }
  unfold PosixPath.splitext, Str.rfind, Str.slice, Str.slice_to.
  rewrite (rfind_chars_notin _ _ N).
  destruct (rfind_chars_spec PosixPath.extsep (Str.chars bn))
    as [[E _]|(pre & post & Hb & _ & E)]; rewrite E.
  - assumption.
  - assert (Hlt : (-1 <? Z.of_nat (length pre)) = true) by (apply Z.ltb_lt; lia).
    rewrite Hlt. change (Z.to_nat (-1 + 1)) with 0%nat.
    rewrite Nat.sub_0_r, drop_0, Hb, take_upto, chars_of_chars.
    destruct (forallb (Ascii.eqb PosixPath.extsep) pre) eqn:Hall.
    + simpl. exact Hwhole.
    + simpl. rewrite chars_of_chars. split.
      * intros Hin. apply N. rewrite Hb. apply elem_of_app. now left.
      * destruct (forallb_false_elem _ _ Hall) as (x & Hx & Hd).
        exists x. split; [assumption|]. apply Ascii.eqb_neq in Hd. congruence.
Qed.

Lemma chars_lower s : Str.chars (Str.lower s) = map Str.lower_char (Str.chars s).
Proof. unfold Str.lower. apply chars_of_chars. Qed.

Lemma endswith_true s suf :
  Str.endswith s suf = true <-> exists k, Str.chars s = k ++ Str.chars suf.
Proof. unfold Str.endswith. now rewrite bool_decide_eq_true. Qed.

(** A name with a WebP extension appended is a WebP name. *)
Lemma is_webp_name_app s : is_webp_name (s +:+ ".webp") = true.
Proof.
  unfold is_webp_name. apply endswith_true.
  exists (map Str.lower_char (Str.chars s)).
  now rewrite chars_lower, chars_app, map_app.
Qed.

(** A TIFF name ends with a letter. *)
Lemma is_tiff_name_last n :
  is_tiff_name n = true ->
  exists c, last (Str.chars n) = Some c /\ c <> PosixPath.extsep /\ c <> PosixPath.sep.
Proof.
  unfold is_tiff_name. intros H.
  assert (L : last (map Str.lower_char (Str.chars n)) = Some "f"%char).
  { apply orb_true_iff in H as [H|H]; apply endswith_true in H as [k Hk];
      rewrite chars_lower in Hk; rewrite Hk, last_app; reflexivity. }
  change (map Str.lower_char (Str.chars n)) with (Str.lower_char <$> Str.chars n) in L.
  rewrite fmap_last in L. destruct (last (Str.chars n)) as [c|]; [|discriminate].
  exists c. split; [reflexivity|]. simpl in L.
  split; intros ->; discriminate.
Qed.

(** The name the output of a TIFF file is given is a WebP name whose stem
    is the stem of the TIFF file. *)
Lemma stem_of_tiff d n :
  is_tiff_name n = true ->
  (PosixPath.sep ∉ Str.chars (stem (PosixPath.join d n))) /\
  (exists x, x ∈ Str.chars (stem (PosixPath.join d n)) /\ x <> PosixPath.extsep).
Proof.
  intros H. destruct (is_tiff_name_last n H) as (c & L & Hd & Hs).
  unfold stem. apply (splitext_fst_good _ c).
  - apply basename_no_sep.
  - apply basename_last; [|assumption]. now apply join_last.
  - assumption.
Qed.

Lemma splitext_webp s :
  PosixPath.sep ∉ Str.chars s ->
  (exists x, x ∈ Str.chars s /\ x <> PosixPath.extsep) ->
  PosixPath.splitext (s +:+ ".webp") = (s, ".webp").
Proof.
  intros N H. apply (splitext_stem_ext s "webp"); [assumption| | |assumption];
    intros H'; apply list_elem_of_In in H'; vm_compute in H'; decompose [or] H';
    discriminate || contradiction.
Qed.

End StringFacts.

(** * Facts about the primitives of the world *)

Section WorldFacts.

Lemma bind_ok {A B} (c : M A) (k : A -> M B) w a w1 :
  c w = (Ok a, w1) -> bind c k w = k a w1.
Proof. unfold bind. now intros ->. Qed.

Lemma scandir_eq p w :
  scandir p w =
  (match dirs (fs w) !! p with Some es => Ok es | None => Raise (OSError p) end,
   log w (EvScanDir p)).
Proof.
  unfold scandir, bind, log_event, get_fs. cbn [fs log].
  now destruct (dirs (fs w) !! p).
Qed.

Lemma getsize_eq p w :
  getsize p w =
  (match files (fs w) !! p with Some x => Ok (st_size x) | None => Raise (OSError p) end,
   log w (EvGetSize p)).
Proof.
  unfold getsize, bind, log_event, get_fs. cbn [fs log].
  now destruct (files (fs w) !! p).
Qed.

Lemma makedirs_eq p w :
  makedirs p w =
  if isdir_fs (fs w) p then (Ok tt, log w (EvMakeDirs p))
  else if isfile_fs (fs w) p then (Raise (OSError p), log w (EvMakeDirs p))
  else
    match makedirs_fs (S (String.length p)) (fs w) p with
    | Some f' => (Ok tt, set_fs (log w (EvMakeDirs p)) f')
    | None => (Raise (OSError p), log w (EvMakeDirs p))
    end.
Proof.
  unfold makedirs, bind, log_event, get_fs. cbn [fs log].
  destruct (isdir_fs (fs w) p); [reflexivity|].
  destruct (isfile_fs (fs w) p); [reflexivity|].
  now destruct (makedirs_fs (S (String.length p)) (fs w) p).
Qed.

Lemma isdir_fs_true f p : isdir_fs f p = true <-> is_Some (dirs f !! p).
Proof. unfold isdir_fs. apply bool_decide_eq_true. Qed.

(** Creating a directory that exists changes nothing. *)
Lemma makedirs_idempotent p w :
  is_Some (dirs (fs w) !! p) -> makedirs p w = (Ok tt, log w (EvMakeDirs p)).
Proof. intros H. apply isdir_fs_true in H. now rewrite makedirs_eq, H. Qed.

Lemma enter_there ds k : is_Some (enter ds k !! k).
Proof.
  unfold enter. destruct (ds !! k) eqn:E; [now rewrite E|].
  rewrite lookup_insert_eq. eauto.
Qed.

Lemma enter_keeps ds k k' : is_Some (ds !! k) -> is_Some (enter ds k' !! k).
Proof.
  unfold enter. intros H. destruct (ds !! k'); [assumption|].
  destruct (decide (k' = k)) as [->|Hne]; [rewrite lookup_insert_eq; eauto|].
  now rewrite lookup_insert_ne.
Qed.

(** A directory that has been made is there, under the spelling it was
    asked for. *)
Lemma mkdir_fs_creates f p f' : mkdir_fs f p = Some f' -> is_Some (dirs f' !! p).
Proof.
  unfold mkdir_fs. destruct (split_dir p) as [head tail].
  destruct (negb (Str.truthy p) || is_root p || exists_fs f p || exists_fs f (plain p));
    [discriminate|].
  destruct (Str.truthy head && negb (is_root head || isdir_fs f head)); [discriminate|].
  intros [= <-]. cbn [dirs spellings foldl]. do 2 apply enter_keeps. apply enter_there.
Qed.

Lemma mkdir_exist_ok_creates f p f' :
  mkdir_exist_ok f p = Some f' -> is_Some (dirs f' !! p).
Proof.
  unfold mkdir_exist_ok. destruct (mkdir_fs f p) as [g|] eqn:Hm.
  - intros [= <-]. now apply (mkdir_fs_creates f).
  - destruct (isdir_fs f p) eqn:Hd.
    + intros [= <-]. now apply isdir_fs_true.
    + destruct (is_root p || isdir_fs f (plain p)); [|discriminate].
      intros [= <-]. cbn [dirs]. rewrite lookup_insert_eq. eauto.
Qed.

Lemma makedirs_fs_creates n f p f' :
  makedirs_fs n f p = Some f' -> is_Some (dirs f' !! p).
Proof.
  destruct n as [|n]; [discriminate|]. cbn [makedirs_fs].
  destruct (split_dir p) as [head tail].
  destruct (Str.truthy head && Str.truthy tail && negb (is_root head || exists_fs f head)).
  - destruct (makedirs_fs n f head) as [f1|]; [|discriminate].
    destruct (String.eqb tail ".").
    + intros [= <-]. cbn [dirs]. rewrite lookup_insert_eq. eauto.
    + apply mkdir_exist_ok_creates.
  - apply mkdir_exist_ok_creates.
Qed.

(** Neither [os.mkdir] nor [os.makedirs] touches a regular file. *)
Lemma mkdir_exist_ok_files f p f' : mkdir_exist_ok f p = Some f' -> files f' = files f.
Proof.
  unfold mkdir_exist_ok, mkdir_fs. destruct (split_dir p) as [head tail].
  destruct (negb (Str.truthy p) || is_root p || exists_fs f p || exists_fs f (plain p)).
  - destruct (isdir_fs f p); [now intros [= <-]|].
    destruct (is_root p || isdir_fs f (plain p)); [now intros [= <-]|discriminate].
  - destruct (Str.truthy head && negb (is_root head || isdir_fs f head)).
    + destruct (isdir_fs f p); [now intros [= <-]|].
      destruct (is_root p || isdir_fs f (plain p)); [now intros [= <-]|discriminate].
    + now intros [= <-].
Qed.

Lemma makedirs_fs_files n f p f' : makedirs_fs n f p = Some f' -> files f' = files f.
Proof.
  revert f p f'. induction n as [|n IH]; intros f p f'; [discriminate|].
  cbn [makedirs_fs]. destruct (split_dir p) as [head tail].
  destruct (Str.truthy head && Str.truthy tail && negb (is_root head || exists_fs f head)).
  - destruct (makedirs_fs n f head) as [f1|] eqn:H1; [|discriminate].
    apply IH in H1. destruct (String.eqb tail ".").
    + intros [= <-]. exact H1.
    + intros H2. apply mkdir_exist_ok_files in H2. congruence.
  - apply mkdir_exist_ok_files.
Qed.

Lemma length_chars s : String.length s = length (Str.chars s).
Proof. induction s as [|c s IH]; [reflexivity|]. cbn. now rewrite IH. Qed.

Lemma length_lstrip_char c l : (length (Str.lstrip_char c l) <= length l)%nat.
Proof.
  induction l as [|x l IH]; [reflexivity|]. cbn [Str.lstrip_char].
  destruct (Ascii.eqb x c); cbn [length]; lia.
Qed.

(** The head and the tail of a path are not longer than the path. *)
Lemma split_length p :
  (String.length (PosixPath.dirname p) + String.length (PosixPath.basename p)
   <= String.length p)%nat.
Proof.
  assert (Hr : forall s, (String.length (Str.rstrip_char s PosixPath.sep) <= String.length s)%nat).
  { intros s. unfold Str.rstrip_char. rewrite !length_chars, chars_of_chars, length_rev.
    etransitivity; [apply length_lstrip_char|]. now rewrite length_rev. }
  rewrite (length_chars p).
  unfold PosixPath.dirname, PosixPath.basename, Str.slice_to, Str.slice_from, Str.rfind.
  destruct (rfind_chars_spec PosixPath.sep (Str.chars p)) as [[E N]|(pre & post & Hp & N & E)];
    rewrite E.
  - change (Z.to_nat (-1 + 1)) with 0%nat. rewrite take_0, drop_0. cbn [Str.of_chars
      string_of_list_ascii Str.truthy andb]. rewrite of_chars_chars, (length_chars p).
    cbn [String.length]. lia.
  - rewrite Hp, take_after, drop_after.
    assert (Hh : (String.length (Str.of_chars (pre ++ [PosixPath.sep])) = length pre + 1)%nat).
    { rewrite length_chars, chars_of_chars, length_app. reflexivity. }
    assert (Ht : String.length (Str.of_chars post) = length post).
    { now rewrite length_chars, chars_of_chars. }
    rewrite length_app. cbn [length]. rewrite Ht.
    destruct (Str.truthy _ && negb _).
    + pose proof (Hr (Str.of_chars (pre ++ [PosixPath.sep]))). lia.
    + lia.
Qed.

Lemma split_dir_shorter p head tail :
  split_dir p = (head, tail) -> Str.truthy tail = true ->
  (String.length head < String.length p)%nat.
Proof.
  unfold split_dir, PosixPath.split. intros Hs Ht.
  assert (Hpos : forall s, Str.truthy s = true -> (0 < String.length s)%nat).
  { intros [|c s]; [discriminate|]. cbn. lia. }
  pose proof (split_length p) as Hp.
  destruct (Str.truthy (PosixPath.basename p)) eqn:Hb.
  - injection Hs as <- <-. apply Hpos in Hb. lia.
  - injection Hs as <- <-. pose proof (split_length (PosixPath.dirname p)).
    apply Hpos in Ht. lia.
Qed.

(** More fuel than the length of the name changes nothing. *)
Lemma makedirs_fs_fuel n m f p :
  (String.length p < n)%nat -> (String.length p < m)%nat ->
  makedirs_fs n f p = makedirs_fs m f p.
Proof.
  revert m f p. induction n as [|n IH]; intros m f p Hn Hm; [lia|].
  destruct m as [|m]; [lia|]. cbn [makedirs_fs].
  destruct (split_dir p) as [head tail] eqn:Hs.
  destruct (Str.truthy head && Str.truthy tail && negb (is_root head || exists_fs f head))
    eqn:Hc; [|reflexivity].
  apply andb_true_iff in Hc as [Hc _]. apply andb_true_iff in Hc as [_ Ht].
  pose proof (split_dir_shorter _ _ _ Hs Ht).
  rewrite (IH m f head); [reflexivity|lia|lia].
Qed.

(** After [makedirs] has succeeded the directory exists. *)
Lemma makedirs_creates p w :
  fst (makedirs p w) = Ok tt -> is_Some (dirs (fs (after_makedirs p w)) !! p).
Proof.
  unfold after_makedirs. rewrite makedirs_eq.
  destruct (isdir_fs (fs w) p) eqn:Hd.
  - intros _. now apply isdir_fs_true in Hd.
  - destruct (isfile_fs (fs w) p); [discriminate|].
    destruct (makedirs_fs (S (String.length p)) (fs w) p) as [f'|] eqn:Hm; [|discriminate].
    intros _. cbn [snd fs set_fs]. now apply makedirs_fs_creates in Hm.
Qed.

Lemma makedirs_trace p w : trace (after_makedirs p w) = trace w ++ [EvMakeDirs p].
Proof.
  unfold after_makedirs. rewrite makedirs_eq.
  destruct (isdir_fs (fs w) p); [reflexivity|].
  destruct (isfile_fs (fs w) p); [reflexivity|].
  now destruct (makedirs_fs (S (String.length p)) (fs w) p).
Qed.

Lemma makedirs_cwd p w : cwd (after_makedirs p w) = cwd w.
Proof.
  unfold after_makedirs. rewrite makedirs_eq.
  destruct (isdir_fs (fs w) p); [reflexivity|].
  destruct (isfile_fs (fs w) p); [reflexivity|].
  now destruct (makedirs_fs (S (String.length p)) (fs w) p).
Qed.

Lemma makedirs_ok p w :
  fst (makedirs p w) = Ok tt -> makedirs p w = (Ok tt, after_makedirs p w).
Proof. unfold after_makedirs. destruct (makedirs p w) as [o w']. simpl. now intros ->. Qed.

(** The selection of the files to convert, step by step. *)
Lemma files_to_convert_eq tiff_dir output_root force w es :
  let webp_dir := webp_dir_of tiff_dir output_root in
  let w1 := after_makedirs webp_dir w in
  fst (makedirs webp_dir w) = Ok tt ->
  dirs (fs w1) !! tiff_dir = Some es ->
  files_to_convert tiff_dir output_root force w =
  if force then (Ok (tiff_files_of tiff_dir es), log w1 (EvScanDir tiff_dir))
  else
    (match dirs (fs w1) !! webp_dir with
     | Some dest => Ok (not_converted (tiff_files_of tiff_dir es) (converted_of dest))
     | None => Raise (OSError webp_dir)
     end,
     log (log w1 (EvScanDir tiff_dir)) (EvScanDir webp_dir)).
Proof.
  intros webp_dir w1 Hm Hs. unfold files_to_convert. fold webp_dir.
  rewrite (bind_ok _ _ _ _ _ (makedirs_ok _ _ Hm)). fold w1.
  unfold bind at 1. rewrite scandir_eq, Hs.
  destruct force; [reflexivity|].
  unfold bind. rewrite scandir_eq. cbn [fs log].
  now destruct (dirs (fs w1) !! webp_dir).
Qed.

End WorldFacts.

(** * The selection of the files to convert *)

Section Selection.

Lemma in_converted_of dest s :
  s ∈ converted_of dest <->
  exists e, e ∈ dest /\ is_file e = true /\ is_webp_name (name e) = true /\
            fst (PosixPath.splitext (name e)) = s.
Proof.
  unfold converted_of. rewrite elem_of_list_to_set, list_elem_of_In, in_map_iff.
  split.
  - intros (e & <- & Hin). apply list_elem_of_In, list_elem_of_filter in Hin as [Hp Hin].
    apply Is_true_true, andb_true_iff in Hp as [? ?]. eauto.
  - intros (e & Hin & Hf & Hw & <-). exists e. split; [reflexivity|].
    apply list_elem_of_In, list_elem_of_filter. split; [|assumption].
    apply Is_true_true. now rewrite Hf, Hw.
Qed.

Lemma has_counterpart_true dest f :
  has_counterpart dest f = true <->
  exists e, e ∈ dest /\ is_file e = true /\ is_webp_name (name e) = true /\
            fst (PosixPath.splitext (name e)) = stem f.
Proof.
  unfold has_counterpart. rewrite existsb_exists. split.
  - intros (e & Hin & H). apply andb_true_iff in H as [H He].
    apply andb_true_iff in H as [Hf Hw]. apply String.eqb_eq in He.
    exists e. rewrite list_elem_of_In. auto.
  - intros (e & Hin & Hf & Hw & He). exists e. rewrite <- list_elem_of_In.
    split; [assumption|]. rewrite Hf, Hw. simpl. now apply String.eqb_eq.
Qed.

(** The files kept are those without a counterpart in the destination. *)
Lemma not_converted_counterpart tiffs dest :
  not_converted tiffs (converted_of dest) =
  filter (fun f => negb (has_counterpart dest f)) tiffs.
Proof.
  unfold not_converted. apply list_filter_iff. intros f.
  rewrite !Is_true_true, bool_decide_eq_true, negb_true_iff, in_converted_of.
  rewrite <- has_counterpart_true. now destruct (has_counterpart dest f).
Qed.

Lemma filter_cons_bool {A} (p : A -> bool) (x : A) (l : list A) :
  filter (fun y => p y) (x :: l) =
  if p x then x :: filter (fun y => p y) l else filter (fun y => p y) l.
Proof. rewrite filter_cons. now destruct (p x). Qed.

Lemma filter_split_length {A} (p : A -> bool) (l : list A) :
  (length (filter (fun x => negb (p x)) l) + length (filter (fun x => p x) l) =
   length l)%nat.
Proof.
  induction l as [|x l IH]; [reflexivity|].
  rewrite !filter_cons. destruct (p x); simpl; lia.
Qed.

(** C1, as the code has it.  With [force_convert] false a TIFF file is left
    out of the work list exactly when the destination holds a regular file
    with a WebP name (the extension compared in lower case) whose stem
    equals the stem of the TIFF file character for character, so that of
    [N] TIFF files of which [M] have such a counterpart, [N - M] are
    selected, in the order of the listing. *)
Theorem selection_by_exact_stem tiff_dir output_root w es :
  fst (makedirs (webp_dir_of tiff_dir output_root) w) = Ok tt ->
  dirs (fs (after_makedirs (webp_dir_of tiff_dir output_root) w)) !! tiff_dir = Some es ->
  exists dest work w2,
    dirs (fs (after_makedirs (webp_dir_of tiff_dir output_root) w))
      !! webp_dir_of tiff_dir output_root = Some dest /\
    files_to_convert tiff_dir output_root false w = (Ok work, w2) /\
    work = filter (fun f => negb (has_counterpart dest f)) (tiff_files_of tiff_dir es) /\
    (forall f, f ∈ tiff_files_of tiff_dir es ->
       (f ∉ work <->
        exists e, e ∈ dest /\ is_file e = true /\ is_webp_name (name e) = true /\
                  fst (PosixPath.splitext (name e)) = stem f)) /\
    Z.of_nat (length work) =
      Z.of_nat (length (tiff_files_of tiff_dir es)) -
      Z.of_nat (length (filter (fun f => has_counterpart dest f) (tiff_files_of tiff_dir es))).
Proof.
  intros Hm Hs. destruct (makedirs_creates _ _ Hm) as [dest Hd].
  exists dest. eexists _, _. split; [exact Hd|]. split.
  { rewrite (files_to_convert_eq _ _ _ _ es Hm Hs). cbn iota. rewrite Hd. reflexivity. }
  rewrite not_converted_counterpart. split; [reflexivity|]. split.
  - intros f Hf. rewrite list_elem_of_filter, <- has_counterpart_true.
    destruct (has_counterpart dest f); simpl; split; intros H; try tauto; try discriminate.
  - pose proof (filter_split_length (has_counterpart dest) (tiff_files_of tiff_dir es)). lia.
Qed.

Lemma selection_by_exact_stem_witness :
  exists work w2,
    files_to_convert "/work/scans" None false partial_world = (Ok work, w2) /\
    work = ["/work/scans/b.tiff"; "/work/scans/C.TIF"].
Proof.
  destruct (selection_by_exact_stem "/work/scans" None partial_world
              [regular "a.tif"; regular "b.tiff"; regular "C.TIF"])
    as (dest & work & w2 & Hdest & Hrun & Hwork & _).
  - vm_compute. reflexivity.
  - vm_compute. reflexivity.
  - exists work, w2. split; [exact Hrun|]. rewrite Hwork.
    assert (Hd : dest = [regular "a.webp"; regular "c.webp"; subdir "b.webp"]).
    { assert (Some dest = Some [regular "a.webp"; regular "c.webp"; subdir "b.webp"])
        as [= ->]; [|reflexivity].
      rewrite <- Hdest. vm_compute. reflexivity. }
    rewrite Hd. vm_compute. reflexivity.
Defined.

(** C1 as the specification words it fails: [A.tif] has a counterpart
    [a.webp] when stems are compared in lower case, and is selected all the
    same; of [N = 1] TIFF files with [M = 1] such counterparts, one is
    selected. *)
Lemma lower_case_counterpart_is_converted_again :
  dirs (fs mixed_case_world) !! "/work/scans_webp" = Some [regular "a.webp"] /\
  tiff_files_of "/work/scans" [regular "A.tif"] = ["/work/scans/A.tif"] /\
  has_counterpart_lower [regular "a.webp"] "/work/scans/A.tif" = true /\
  fst (files_to_convert "/work/scans" None false mixed_case_world)
    = Ok ["/work/scans/A.tif"].
Proof. vm_compute. repeat split; reflexivity. Qed.

Lemma is_file_kind e : is_file e = true <-> kind e = KFile.
Proof. unfold is_file. destruct (kind e); split; congruence. Qed.

(** The test of the program on the lower-cased name is the test on the end
    of the name, case ignored. *)
Lemma endswith_lower n ext :
  Str.endswith (Str.lower n) ext = true <-> ends_with_ignoring_case n ext.
Proof.
  rewrite endswith_true, chars_lower. unfold ends_with_ignoring_case. split.
  - intros [k Hk].
    change (map Str.lower_char (Str.chars n)) with (Str.lower_char <$> Str.chars n) in Hk.
    apply fmap_app_inv in Hk as (l1 & l2 & -> & Hext & Hn).
    exists (Str.of_chars l1), (Str.of_chars l2). split.
    + apply chars_inj. now rewrite chars_app, !chars_of_chars.
    + unfold Str.lower. rewrite chars_of_chars.
      change (map Str.lower_char l2) with (Str.lower_char <$> l2).
      rewrite <- Hext. apply of_chars_chars.
  - intros (s & x & -> & <-). exists (map Str.lower_char (Str.chars s)).
    now rewrite chars_app, map_app, chars_lower.
Qed.

Lemma is_tiff_entry_source e : is_tiff_entry e = true <-> tiff_source e.
Proof.
  unfold is_tiff_entry, tiff_source, is_tiff_name.
  now rewrite andb_true_iff, orb_true_iff, is_file_kind, !endswith_lower.
Qed.

(** [filter] selects. *)
Lemma selects_filter {A} (P : A -> Prop) (p : A -> bool) l :
  (forall x, p x = true <-> P x) -> selects P l (filter (fun x => p x) l).
Proof.
  intros Hp. induction l as [|x l IH]; [constructor|].
  rewrite filter_cons_bool. destruct (p x) eqn:Hx.
  - constructor; [now apply Hp|assumption].
  - constructor; [|assumption]. rewrite <- Hp. congruence.
Qed.

Lemma selects_unique {A} (P : A -> Prop) l s1 s2 :
  selects P l s1 -> selects P l s2 -> s1 = s2.
Proof.
  intros H1. revert s2. induction H1 as [|x l s1 Hx H1 IH|x l s1 Hx H1 IH];
    intros s2 H2; inversion H2; subst; try contradiction; try reflexivity.
  - f_equal. now apply IH.
  - now apply IH.
Qed.

(** C4.  With [force_convert] true the work list is made of the TIFF source
    files of the directory and of nothing else: it holds the paths, in the
    order of the listing, of the entries that are regular files whose name
    ends, case ignored, with [".tif"] or [".tiff"].  The destination is
    created when it is missing but its entries are not read: whatever it
    holds, the same listing of the source gives the same work list. *)
Theorem force_selects_all tiff_dir output_root w es :
  fst (makedirs (webp_dir_of tiff_dir output_root) w) = Ok tt ->
  dirs (fs (after_makedirs (webp_dir_of tiff_dir output_root) w)) !! tiff_dir = Some es ->
  exists sel,
    selects tiff_source es sel /\
    files_to_convert tiff_dir output_root true w =
      (Ok (map (fun e => PosixPath.join tiff_dir (name e)) sel),
       log (after_makedirs (webp_dir_of tiff_dir output_root) w) (EvScanDir tiff_dir)) /\
    (forall p,
       p ∈ map (fun e => PosixPath.join tiff_dir (name e)) sel <->
       exists e, e ∈ es /\ tiff_source e /\ p = PosixPath.join tiff_dir (name e)) /\
    tiff_files_of tiff_dir es = map (fun e => PosixPath.join tiff_dir (name e)) sel /\
    (forall v,
       fst (makedirs (webp_dir_of tiff_dir output_root) v) = Ok tt ->
       dirs (fs (after_makedirs (webp_dir_of tiff_dir output_root) v)) !! tiff_dir = Some es ->
       fst (files_to_convert tiff_dir output_root true v) =
       fst (files_to_convert tiff_dir output_root true w)).
Proof.
  intros Hm Hs. exists (filter (fun e => is_tiff_entry e) es).
  assert (Hw : files_to_convert tiff_dir output_root true w =
               (Ok (map (fun e => PosixPath.join tiff_dir (name e))
                        (filter (fun e => is_tiff_entry e) es)),
                log (after_makedirs (webp_dir_of tiff_dir output_root) w)
                    (EvScanDir tiff_dir))).
  { now rewrite (files_to_convert_eq _ _ _ _ es Hm Hs). }
  split; [apply selects_filter, is_tiff_entry_source|].
  split; [exact Hw|]. split; [|split; [reflexivity|]].
  - intros p. rewrite list_elem_of_In, in_map_iff. split.
    + intros (e & <- & He). apply list_elem_of_In, list_elem_of_filter in He as [Ht He].
      exists e. split; [assumption|]. split; [|reflexivity].
      now apply is_tiff_entry_source, Is_true_true.
    + intros (e & He & Ht & ->). exists e. split; [reflexivity|].
      apply list_elem_of_In, list_elem_of_filter. split; [|assumption].
      now apply Is_true_true, is_tiff_entry_source.
  - intros v Hmv Hsv. now rewrite Hw, (files_to_convert_eq _ _ _ _ es Hmv Hsv).
Qed.

Lemma force_selects_all_witness :
  files_to_convert "/work/scans" None true tree_world =
    (Ok ["/work/scans/a.TIF"; "/work/scans/b.tiff"],
     log (after_makedirs "/work/scans_webp" tree_world) (EvScanDir "/work/scans")).
Proof.
  destruct (force_selects_all "/work/scans" None tree_world
              [regular "readme.md"; subdir "old.tif"; regular "a.TIF"; regular "b.tiff"])
    as (sel & Hsel & Hrun & _).
  - vm_compute. reflexivity.
  - vm_compute. reflexivity.
  - rewrite Hrun.
    rewrite (selects_unique _ _ _ _ Hsel
               (selects_filter tiff_source is_tiff_entry _ is_tiff_entry_source)).
    vm_compute. reflexivity.
Defined.

End Selection.

(** * The conversion loop *)

Section Conversion.

Context {F : Type} `{!PyFloat F}.
Variable cwebp : FS -> string -> string -> option F * FS.

Lemma convert_to_webp_eq i o w :
  convert_to_webp cwebp i o w =
  match cwebp (fs w) i o with
  | (Some t, f') => (Ok (true, Fl t), set_fs (log w (EvEncode i o)) f')
  | (None, f') => (Ok (false, I 0), log (set_fs (log w (EvEncode i o)) f') EvLogError)
  end.
Proof.
  unfold convert_to_webp, bind, log_event, get_fs, put_fs. cbn [fs log].
  now destruct (cwebp (fs w) i o) as [[t|] f'].
Qed.

(** One iteration of the loop, case by case. *)
Lemma convert_one_eq webp_dir st p w :
  convert_one cwebp webp_dir st p w =
  match files (fs w) !! p with
  | None => (Raise (OSError p), log w (EvGetSize p))
  | Some x =>
      match cwebp (fs w) p (output_path_of webp_dir p) with
      | (None, f') =>
          (Ok st,
           log (set_fs (log (log w (EvGetSize p)) (EvEncode p (output_path_of webp_dir p))) f')
               EvLogError)
      | (Some t, f') =>
          (match files f' !! output_path_of webp_dir p with
           | None => Raise (OSError (output_path_of webp_dir p))
           | Some y =>
               if st_size x =? 0 then Raise ZeroDivisionError
               else Ok {| ls_total_time := py_add (ls_total_time st) (Fl t);
                          ls_success_count := ls_success_count st + 1;
                          file_sizes := file_sizes st ++
                            [(st_size x, st_size y, py_div (I (st_size y)) (st_size x))] |}
           end,
           log (set_fs (log (log w (EvGetSize p)) (EvEncode p (output_path_of webp_dir p))) f')
               (EvGetSize (output_path_of webp_dir p)))
      end
  end.
Proof.
  unfold convert_one. unfold bind at 1. rewrite getsize_eq.
  destruct (files (fs w) !! p) as [x|]; [|reflexivity].
  unfold bind at 1. rewrite convert_to_webp_eq. cbn [fs log].
  destruct (cwebp (fs w) p (output_path_of webp_dir p)) as [[t|] f']; [|reflexivity].
  unfold bind at 1. rewrite getsize_eq. cbn [fs set_fs].
  destruct (files f' !! output_path_of webp_dir p) as [y|]; [|reflexivity].
  unfold bind, py_truediv, raise, ret.
  now destruct (st_size x =? 0).
Qed.

(** What the selection leaves behind: the destination created, and a trace
    of that and of the listings. *)
Lemma files_to_convert_effects tiff_dir output_root force w work w1 :
  files_to_convert tiff_dir output_root force w = (Ok work, w1) ->
  fs w1 = fs (after_makedirs (webp_dir_of tiff_dir output_root) w) /\
  cwd w1 = cwd w /\
  trace w1 = trace w ++ EvMakeDirs (webp_dir_of tiff_dir output_root)
                     :: EvScanDir tiff_dir
                     :: (if force then [] else [EvScanDir (webp_dir_of tiff_dir output_root)]).
Proof.
  unfold files_to_convert, after_makedirs. unfold bind at 1.
  pose proof (makedirs_trace (webp_dir_of tiff_dir output_root) w) as Ht.
  pose proof (makedirs_cwd (webp_dir_of tiff_dir output_root) w) as Hc.
  unfold after_makedirs in Ht, Hc.
  destruct (makedirs (webp_dir_of tiff_dir output_root) w) as [[[]|e] wm]; [|discriminate].
  cbn [snd] in *. unfold bind at 1. rewrite scandir_eq.
  destruct (dirs (fs wm) !! tiff_dir) as [es|]; [|discriminate].
  destruct force.
  - intros [= _ <-]. cbn [fs cwd trace log]. rewrite Ht, <- app_assoc. auto.
  - unfold bind. rewrite scandir_eq. cbn [fs log].
    destruct (dirs (fs wm) !! webp_dir_of tiff_dir output_root); [|discriminate].
    intros [= _ <-]. cbn [fs cwd trace log]. rewrite Ht, <- !app_assoc. auto.
Qed.

(** C5.  When the selection leaves nothing to convert, [process_directory]
    returns five zeros in the world the selection left: the file system is
    the one [makedirs] of the destination gave (the initial one when the
    destination was there already), and the trace holds that call and the
    listings, with no encoder call and no size read. *)
Theorem empty_work_list_is_free tiff_dir output_root force w w1 :
  files_to_convert tiff_dir output_root force w = (Ok [], w1) ->
  process_directory cwebp tiff_dir output_root force w = (Ok zero_result, w1) /\
  fs w1 = fs (after_makedirs (webp_dir_of tiff_dir output_root) w) /\
  (isdir_fs (fs w) (webp_dir_of tiff_dir output_root) = true -> fs w1 = fs w) /\
  trace w1 = trace w ++ EvMakeDirs (webp_dir_of tiff_dir output_root)
                     :: EvScanDir tiff_dir
                     :: (if force then [] else [EvScanDir (webp_dir_of tiff_dir output_root)]) /\
  (forall i o, EvEncode i o ∉ trace w -> EvEncode i o ∉ trace w1).
Proof.
  intros Hsel. destruct (files_to_convert_effects _ _ _ _ _ _ Hsel) as (Hfs & _ & Htr).
  split; [|split; [exact Hfs|split; [|split; [exact Htr|]]]].
  - unfold process_directory. now rewrite (bind_ok _ _ _ _ _ Hsel).
  - intros Hd. rewrite Hfs. unfold after_makedirs. now rewrite makedirs_eq, Hd.
  - intros i o Hn. rewrite Htr, elem_of_app, !elem_of_cons. intros [?|[?|[?|H]]];
      [contradiction|discriminate|discriminate|].
    destruct force; [now apply elem_of_nil in H|].
    apply elem_of_cons in H as [?|H]; [discriminate|now apply elem_of_nil in H].
Qed.

(** C6.  A file on which the encoder fails leaves the statistics of the loop
    as they were: nothing is counted, no time, size or ratio is recorded,
    the size of its output is not read (the trace holds the size of the
    source, the encoder call and the error logged), and the loop goes on
    with the next file. *)
Theorem failed_file_is_skipped webp_dir st tiff_path rest w x f' :
  files (fs w) !! tiff_path = Some x ->
  cwebp (fs w) tiff_path (output_path_of webp_dir tiff_path) = (None, f') ->
  exists w',
    convert_one cwebp webp_dir st tiff_path w = (Ok st, w') /\
    fs w' = f' /\
    trace w' = trace w ++ [EvGetSize tiff_path;
                           EvEncode tiff_path (output_path_of webp_dir tiff_path);
                           EvLogError] /\
    for_ (tiff_path :: rest) st (convert_one cwebp webp_dir) w =
    for_ rest st (convert_one cwebp webp_dir) w'.
Proof.
  intros Hx Henc. eexists. split; [|split; [|split]].
  - rewrite convert_one_eq, Hx, Henc. reflexivity.
  - reflexivity.
  - cbn [trace log set_fs]. now rewrite <- !app_assoc.
  - cbn [for_]. unfold bind at 1. now rewrite convert_one_eq, Hx, Henc.
Qed.

End Conversion.

Lemma empty_work_list_is_free_witness :
  process_directory half_encoder "/work/scans" None false done_world =
    (Ok zero_result, snd (files_to_convert "/work/scans" None false done_world)) /\
  fs (snd (files_to_convert "/work/scans" None false done_world)) = done_fs.
Proof.
  destruct (empty_work_list_is_free half_encoder "/work/scans" None false done_world
              (snd (files_to_convert "/work/scans" None false done_world)))
    as (Hrun & _ & Hfs & _).
  - vm_compute. reflexivity.
  - split; [exact Hrun|]. apply Hfs. vm_compute. reflexivity.
Defined.

Lemma failed_file_is_skipped_witness :
  exists w',
    convert_one failing_encoder "/work/scans_webp" loop_init "/work/scans/a.tif" scans_world
      = (Ok loop_init, w') /\
    trace w' = [EvGetSize "/work/scans/a.tif";
                EvEncode "/work/scans/a.tif" "/work/scans_webp/a.webp";
                EvLogError].
Proof.
  destruct (failed_file_is_skipped failing_encoder "/work/scans_webp" loop_init
              "/work/scans/a.tif" ["/work/scans/b.tiff"] scans_world (sized 1000) scans_fs)
    as (w' & Hone & _ & Htr & _).
  - vm_compute. reflexivity.
  - reflexivity.
  - exists w'. split; [exact Hone|]. rewrite Htr. vm_compute. reflexivity.
Defined.

(** * The path of the converted file *)

Section OutputPath.

Context {F : Type} `{!PyFloat F}.
Variable cwebp : FS -> string -> string -> option F * FS.

Lemma stem_of_entry d b e :
  PosixPath.sep ∉ Str.chars b -> PosixPath.sep ∉ Str.chars e ->
  PosixPath.extsep ∉ Str.chars e ->
  (exists c, c ∈ Str.chars b /\ c <> PosixPath.extsep) ->
  stem (PosixPath.join d (b +:+ "." +:+ e)) = b.
Proof.
  intros Nb Ne Nd Hb. unfold stem. rewrite basename_join.
  - now rewrite splitext_stem_ext.
  - rewrite !chars_app, !elem_of_app. intros [?|[H|?]]; [auto| |auto].
    apply list_elem_of_In in H. vm_compute in H. decompose [or] H; [discriminate|contradiction].
Qed.

Lemma tif_extensions :
  (PosixPath.sep ∉ Str.chars "tif") /\ (PosixPath.extsep ∉ Str.chars "tif") /\
  (PosixPath.sep ∉ Str.chars "tiff") /\ (PosixPath.extsep ∉ Str.chars "tiff").
Proof.
  repeat split; intros H; apply list_elem_of_In in H; vm_compute in H;
    decompose [or] H; discriminate || contradiction.
Qed.

(** The encoder is called right after the size of the source is read, with
    the output path of the source. *)
Lemma convert_one_trace webp_dir st p w x :
  files (fs w) !! p = Some x ->
  exists evs,
    trace (snd (convert_one cwebp webp_dir st p w)) =
    trace w ++ EvGetSize p :: EvEncode p (output_path_of webp_dir p) :: evs.
Proof.
  intros Hx. rewrite convert_one_eq, Hx.
  destruct (cwebp (fs w) p (output_path_of webp_dir p)) as [[t|] f'];
    cbn [snd trace log set_fs]; eexists; rewrite <- !app_assoc; reflexivity.
Qed.

(** C9.  The encoder is called, for every file of the work list, with the
    destination joined with the stem of the file (its base name with the
    extension [splitext] finds taken off) and [".webp"].  For a file named
    [b.e] (a stem [b] that is not made of dots, an extension [e]) in a
    directory [d] that stem is [b], spelled as it is, so that [b.tif] and
    [b.tiff] are written to one and the same path. *)
Theorem output_path_keeps_stem webp_dir :
  (forall st w p x,
     files (fs w) !! p = Some x ->
     exists evs,
       trace (snd (convert_one cwebp webp_dir st p w)) =
       trace w ++ EvGetSize p
               :: EvEncode p (PosixPath.join webp_dir
                                (fst (PosixPath.splitext (PosixPath.basename p)) +:+ ".webp"))
               :: evs) /\
  (forall d b e,
     PosixPath.sep ∉ Str.chars b -> PosixPath.sep ∉ Str.chars e ->
     PosixPath.extsep ∉ Str.chars e ->
     (exists c, c ∈ Str.chars b /\ c <> PosixPath.extsep) ->
     stem (PosixPath.join d (b +:+ "." +:+ e)) = b /\
     output_path_of webp_dir (PosixPath.join d (b +:+ "." +:+ e))
       = PosixPath.join webp_dir (b +:+ ".webp")) /\
  (forall d b,
     PosixPath.sep ∉ Str.chars b ->
     (exists c, c ∈ Str.chars b /\ c <> PosixPath.extsep) ->
     output_path_of webp_dir (PosixPath.join d (b +:+ ".tif"))
       = output_path_of webp_dir (PosixPath.join d (b +:+ ".tiff"))).
Proof.
  split; [|split].
  - intros st w p x Hx. apply (convert_one_trace _ _ _ _ x Hx).
  - intros d b e Nb Ne Nd Hb.
    pose proof (stem_of_entry d b e Nb Ne Nd Hb) as Hstem.
    split; [exact Hstem|]. unfold output_path_of. now rewrite Hstem.
  - intros d b Nb Hb. destruct tif_extensions as (S1 & D1 & S2 & D2).
    unfold output_path_of.
    change (b +:+ ".tif") with (b +:+ "." +:+ "tif").
    change (b +:+ ".tiff") with (b +:+ "." +:+ "tiff").
    now rewrite (stem_of_entry d b "tif" Nb S1 D1 Hb), (stem_of_entry d b "tiff" Nb S2 D2 Hb).
Qed.

End OutputPath.

Lemma output_path_keeps_stem_witness :
  stem "/work/scans/Page.01.TIF" = "Page.01" /\
  output_path_of "/work/scans_webp" "/work/scans/Page.01.TIF" = "/work/scans_webp/Page.01.webp" /\
  output_path_of "/work/scans_webp" "/work/scans/x.tif"
    = output_path_of "/work/scans_webp" "/work/scans/x.tiff".
Proof.
  destruct (output_path_keeps_stem failing_encoder "/work/scans_webp") as (_ & Hname & Hsame).
  assert (Hp : exists c, c ∈ Str.chars "Page.01" /\ c <> PosixPath.extsep).
  { exists "P"%char. split; [|discriminate]. apply list_elem_of_In. vm_compute. now left. }
  assert (Hx : exists c, c ∈ Str.chars "x" /\ c <> PosixPath.extsep).
  { exists "x"%char. split; [|discriminate]. apply list_elem_of_In. vm_compute. now left. }
  destruct (Hname "/work/scans" "Page.01" "TIF") as [Hstem Hout]; [| | |exact Hp|];
    try (intros H; apply list_elem_of_In in H; vm_compute in H; decompose [or] H;
         discriminate || contradiction).
  split; [exact Hstem|]. split; [exact Hout|].
  apply (Hsame "/work/scans" "x"); [|exact Hx].
  intros H; apply list_elem_of_In in H; vm_compute in H; decompose [or] H;
    discriminate || contradiction.
Defined.

(** * The discovery of the directories *)

Section Discovery.

(** The inner loop stops at the first TIFF file: the entries after it stay
    unread. *)
Lemma has_tiff_loop_spec it :
  (exists pre m rest,
     it = pre ++ m :: rest /\ existsb is_tiff_entry pre = false /\
     is_tiff_entry m = true /\ has_tiff_loop it = (true, rest)) \/
  (existsb is_tiff_entry it = false /\ has_tiff_loop it = (false, [])).
Proof.
  induction it as [|x it IH]; [right; auto|].
  cbn [has_tiff_loop existsb]. fold (is_tiff_entry x).
  destruct (is_tiff_entry x) eqn:Hx.
  - left. exists [], x, it. auto.
  - destruct IH as [(pre & m & rest & -> & Hpre & Hm & Hl)|[Hn Hl]].
    + left. exists (x :: pre), m, rest. cbn [existsb]. rewrite Hx, Hpre. auto.
    + right. auto.
Qed.

Lemma has_tiff_loop_fst it : fst (has_tiff_loop it) = existsb is_tiff_entry it.
Proof.
  destruct (has_tiff_loop_spec it) as [(pre & m & rest & -> & Hpre & Hm & ->)|[Hn ->]].
  - rewrite existsb_app. cbn [existsb]. rewrite Hm. simpl. now rewrite orb_true_r.
  - now rewrite Hn.
Qed.

Lemma find_tiff_dirs_loop root_path es acc w :
  (forall e, e ∈ es -> is_dir e = true ->
             is_Some (dirs (fs w) !! entry_path root_path e)) ->
  exists w',
    for_ es acc (find_tiff_dirs_step root_path) w
      = (Ok (acc ++ tiff_subdirs (fs w) root_path es), w') /\
    fs w' = fs w /\ cwd w' = cwd w /\
    trace w' = trace w ++ map (fun e => EvScanDir (entry_path root_path e))
                              (filter (fun e => is_dir e) es).
Proof.
  revert acc w. induction es as [|e es IH]; intros acc w Hsub.
  - exists w. cbn. now rewrite !app_nil_r.
  - cbn [for_]. unfold tiff_subdirs.
    rewrite (filter_cons_bool (fun e => is_dir e && holds_tiff (fs w) (entry_path root_path e))).
    rewrite (filter_cons_bool is_dir).
    assert (Hrest : forall e', e' ∈ es -> is_dir e' = true ->
                               is_Some (dirs (fs w) !! entry_path root_path e'))
      by (intros e' ? ?; apply Hsub; [apply elem_of_cons; now right|assumption]).
    unfold find_tiff_dirs_step at 1.
    destruct (is_dir e) eqn:Hd; cbn [negb andb].
    + destruct (Hsub e) as [it Hit]; [apply elem_of_cons; now left|assumption|].
      unfold bind at 1. unfold bind at 1. rewrite scandir_eq, Hit. unfold ret.
      rewrite has_tiff_loop_fst.
      assert (Hh : holds_tiff (fs w) (entry_path root_path e) = existsb is_tiff_entry it)
        by (unfold holds_tiff; now rewrite Hit).
      rewrite Hh.
      destruct (IH (if existsb is_tiff_entry it
                    then acc ++ [entry_path root_path e] else acc)
                   (log w (EvScanDir (entry_path root_path e))) Hrest)
        as (w' & Hrun & Hfs & Hcwd & Htr).
      exists w'. rewrite Hrun. cbn [fs cwd trace log] in *. unfold tiff_subdirs.
      split; [|split; [assumption|split; [assumption|]]].
      * destruct (existsb is_tiff_entry it); simpl; [|reflexivity].
        now rewrite <- app_assoc.
      * simpl. now rewrite Htr, <- app_assoc.
    + unfold bind at 1. unfold ret at 1.
      destruct (IH acc w Hrest) as (w' & Hrun & Hfs & Hcwd & Htr).
      exists w'. rewrite Hrun. simpl. auto.
Qed.

(** C8.  [find_tiff_dirs] lists the root and, once each, the directories
    among its entries, and nothing deeper; it returns the paths of those of
    them that hold at least one regular file with a TIFF name (compared in
    lower case), in the order of the listing; and the loop over the entries of
    a directory ends at the first such file, leaving the rest unread. *)
Theorem find_tiff_dirs_one_level root_path w es :
  dirs (fs w) !! root_path = Some es ->
  (forall e, e ∈ es -> is_dir e = true ->
             is_Some (dirs (fs w) !! entry_path root_path e)) ->
  (exists w',
     find_tiff_dirs root_path w = (Ok (tiff_subdirs (fs w) root_path es), w') /\
     fs w' = fs w /\
     trace w' = trace w ++ EvScanDir root_path
                        :: map (fun e => EvScanDir (entry_path root_path e))
                               (filter (fun e => is_dir e) es)) /\
  (forall it,
     (exists pre m rest,
        it = pre ++ m :: rest /\ existsb is_tiff_entry pre = false /\
        is_tiff_entry m = true /\ has_tiff_loop it = (true, rest)) \/
     (existsb is_tiff_entry it = false /\ has_tiff_loop it = (false, []))).
Proof.
  intros Hroot Hsub. split; [|apply has_tiff_loop_spec].
  unfold find_tiff_dirs. unfold bind at 1. rewrite scandir_eq, Hroot.
  destruct (find_tiff_dirs_loop root_path es [] (log w (EvScanDir root_path)) Hsub)
    as (w' & Hrun & Hfs & _ & Htr).
  exists w'. split; [exact Hrun|]. split; [exact Hfs|].
  rewrite Htr. cbn [trace log]. now rewrite <- app_assoc.
Qed.

End Discovery.

Lemma find_tiff_dirs_one_level_witness :
  exists w',
    find_tiff_dirs "/work" tree_world = (Ok ["/work/scans"], w') /\
    trace w' = [EvScanDir "/work"; EvScanDir "/work/scans"; EvScanDir "/work/empty";
                EvScanDir "/work/deep"].
Proof.
  destruct (find_tiff_dirs_one_level "/work" tree_world
              [subdir "scans"; regular "x.tif"; subdir "empty"; subdir "deep"])
    as [(w' & Hrun & _ & Htr) _].
  - vm_compute. reflexivity.
  - intros e He Hd. apply list_elem_of_In in He. cbn [In] in He.
    decompose [or] He; subst; try discriminate; try contradiction;
      vm_compute; eauto.
  - exists w'. split; [rewrite Hrun; vm_compute; reflexivity|].
    rewrite Htr. vm_compute. reflexivity.
Defined.

(** * The driver and its summary *)

Section Driver.

Context {F : Type} `{!PyFloat F}.
Variable cwebp : FS -> string -> string -> option F * FS.

(** The summary never raises. *)
Lemma summarize_eq (t : totals F) (w : World) : summarize t w = (Ok (summary_of t), w).
Proof.
  unfold summarize, summary_of, bind, int_truthy, py_truediv, ret, raise.
  destruct (total_files t =? 0); destruct (total_orig_size t =? 0); reflexivity.
Qed.

(** [main] is the processing followed by the summary of its counters. *)
Lemma main_eq args w :
  main cwebp args w =
  match (let! _ := ensure_output_dir args in run_target cwebp args) w with
  | (Ok t, w') => (Ok (summary_of t), w')
  | (Raise e, w') => (Raise e, w')
  end.
Proof.
  unfold main, bind.
  destruct (ensure_output_dir args w) as [[[]|e] w1]; [|reflexivity].
  destruct (run_target cwebp args w1) as [[t|e] w2]; [apply summarize_eq|reflexivity].
Qed.

(** C10.  The statistics of the report are total functions of the
    counters: the average time is 0 when no file was converted and
    [total_time / total_files] otherwise, the ratio is 0 when no byte was
    read and [total_compressed_size / total_orig_size] otherwise, and
    [summarize] never raises; a run that converts nothing reports two
    zeros, and [main] raises only what the processing before the summary
    raised. *)
Theorem summary_is_total (t : totals F) (w : World) :
  summarize t w = (Ok (summary_of t), w) /\
  avg_file_time (summary_of t) =
    (if total_files t =? 0 then I 0 else py_div (total_time t) (total_files t)) /\
  compression_ratio (summary_of t) =
    (if total_orig_size t =? 0 then I 0
     else py_div (I (total_compressed_size t)) (total_orig_size t)) /\
  summarize totals_init w =
    (Ok {| run_totals := totals_init; avg_file_time := I 0; compression_ratio := I 0 |}, w) /\
  (forall args,
     main cwebp args w =
     match (let! _ := ensure_output_dir args in run_target cwebp args) w with
     | (Ok t', w') => (Ok (summary_of t'), w')
     | (Raise e, w') => (Raise e, w')
     end).
Proof.
  split; [apply summarize_eq|]. split; [reflexivity|]. split; [reflexivity|].
  split; [apply summarize_eq|]. intros args. apply main_eq.
Qed.

(** The counters are sums. *)
Lemma totals_of_snoc rs (r : dir_result F) :
  totals_of (rs ++ [r]) = accumulate (totals_of rs) r.
Proof. unfold totals_of. now rewrite fold_left_app. Qed.

Lemma fold_accumulate_fields rs (t : totals F) :
  total_files (fold_left accumulate rs t) = fold_left Z.add (map count rs) (total_files t) /\
  total_time (fold_left accumulate rs t) = fold_left py_add (map time_spent rs) (total_time t) /\
  total_orig_size (fold_left accumulate rs t)
    = fold_left Z.add (map orig rs) (total_orig_size t) /\
  total_compressed_size (fold_left accumulate rs t)
    = fold_left Z.add (map comp rs) (total_compressed_size t).
Proof.
  revert t. induction rs as [|r rs IH]; intros t; [auto|].
  cbn [fold_left map]. destruct (IH (accumulate t r)) as (H1 & H2 & H3 & H4).
  rewrite H1, H2, H3, H4. auto.
Qed.

Lemma process_and_add_keep output_root force rs d w :
  process_and_add cwebp output_root force (totals_of rs) d w =
  to_totals (process_and_keep cwebp output_root force rs d w).
Proof.
  unfold process_and_add, process_and_keep, bind, ret, to_totals.
  destruct (process_directory cwebp d output_root force w) as [[r|e] w1]; [|reflexivity].
  now rewrite totals_of_snoc.
Qed.

Lemma for_add_keep output_root force ds rs w :
  for_ ds (totals_of rs) (process_and_add cwebp output_root force) w =
  to_totals (for_ ds rs (process_and_keep cwebp output_root force) w).
Proof.
  revert rs w. induction ds as [|d ds IH]; intros rs w; [reflexivity|].
  cbn [for_]. unfold bind. rewrite process_and_add_keep.
  destruct (process_and_keep cwebp output_root force rs d w) as [[rs'|e] w1];
    [apply IH|reflexivity].
Qed.

Lemma manifest_step_keep output_root rs d w :
  manifest_step cwebp output_root (totals_of rs) d w =
  to_totals (manifest_keep cwebp output_root rs d w).
Proof.
  unfold manifest_step, manifest_keep, isdir, get_fs, bind, ret.
  destruct (isdir_fs (fs w) d); [apply process_and_add_keep|reflexivity].
Qed.

Lemma for_manifest_keep output_root ds rs w :
  for_ ds (totals_of rs) (manifest_step cwebp output_root) w =
  to_totals (for_ ds rs (manifest_keep cwebp output_root) w).
Proof.
  revert rs w. induction ds as [|d ds IH]; intros rs w; [reflexivity|].
  cbn [for_]. unfold bind. rewrite manifest_step_keep.
  destruct (manifest_keep cwebp output_root rs d w) as [[rs'|e] w1];
    [apply IH|reflexivity].
Qed.

Lemma scan_mode_results output_root w :
  scan_mode cwebp output_root w = to_totals (scan_results cwebp output_root w).
Proof.
  unfold scan_mode, scan_results, getcwd, bind.
  destruct (find_tiff_dirs (cwd w) w) as [[ds|e] w1]; [|reflexivity].
  apply (for_add_keep _ _ _ []).
Qed.

(** The counters of a run are those of its list of results. *)
Lemma run_target_results args w :
  run_target cwebp args w = to_totals (run_results cwebp args w).
Proof.
  unfold run_target, run_results.
  destruct (target args) as [tg|]; [|apply scan_mode_results].
  destruct (Str.truthy tg); [|apply scan_mode_results].
  unfold isdir, isfile, read_lines, get_fs, bind, ret.
  destruct (isdir_fs (fs w) tg).
  - apply (process_and_add_keep _ _ []).
  - destruct (isfile_fs (fs w) tg && Str.endswith tg ".txt"); [|reflexivity].
    destruct (files (fs w) !! tg) as [x|]; [|reflexivity].
    destruct (content x) as [ls| |]; [|reflexivity|reflexivity].
    apply (for_manifest_keep _ _ []).
Qed.

(** C2.  When the directories of a run are processed and give the results
    [rs], [main] reports counters that are, field by field, the sums of the
    counts, times, original bytes and converted bytes of [rs] (added in the
    order of the run, from 0), and a ratio that is the total of the
    converted bytes divided by the total of the original bytes (0 when that
    is 0): the ratios of the directories do not enter it. *)
Theorem totals_are_sums args w rs w' :
  main_results cwebp args w = (Ok rs, w') ->
  exists s,
    main cwebp args w = (Ok s, w') /\
    total_files (run_totals s) = int_sum (map count rs) /\
    total_time (run_totals s) = py_sum (map time_spent rs) /\
    total_orig_size (run_totals s) = int_sum (map orig rs) /\
    total_compressed_size (run_totals s) = int_sum (map comp rs) /\
    compression_ratio s =
      (if int_sum (map orig rs) =? 0 then I 0
       else py_div (I (int_sum (map comp rs))) (int_sum (map orig rs))).
Proof.
  intros Hres. exists (summary_of (totals_of rs)).
  destruct (fold_accumulate_fields rs totals_init) as (H1 & H2 & H3 & H4).
  split.
  - rewrite main_eq. unfold main_results, bind in Hres. unfold bind.
    destruct (ensure_output_dir args w) as [[[]|e] w1]; [|discriminate].
    rewrite run_target_results, Hres. reflexivity.
  - unfold summary_of, totals_of, int_sum, py_sum. cbn [run_totals compression_ratio].
    rewrite H1, H2, H3, H4. auto.
Qed.

End Driver.

Lemma totals_are_sums_witness :
  main_results uneven_encoder batch_args batch_world
    = (Ok [ {| count := 1; time_spent := Fl (1 # 2)%Q; ratio := Fl (1 # 2)%Q;
               orig := 1000; comp := 500 |};
            {| count := 1; time_spent := Fl (1 # 2)%Q; ratio := Fl (1 # 10)%Q;
               orig := 3000; comp := 300 |} ],
       snd (main_results uneven_encoder batch_args batch_world)) /\
  exists s,
    main uneven_encoder batch_args batch_world
      = (Ok s, snd (main_results uneven_encoder batch_args batch_world)) /\
    total_files (run_totals s) = 2 /\
    total_orig_size (run_totals s) = 4000 /\
    total_compressed_size (run_totals s) = 800 /\
    compression_ratio s = Fl (1 # 5)%Q /\
    py_div (py_sum [Fl (1 # 2)%Q; Fl (1 # 10)%Q]) 2 = Fl (3 # 10)%Q.
Proof.
  assert (Hres : main_results uneven_encoder batch_args batch_world
    = (Ok [ {| count := 1; time_spent := Fl (1 # 2)%Q; ratio := Fl (1 # 2)%Q;
               orig := 1000; comp := 500 |};
            {| count := 1; time_spent := Fl (1 # 2)%Q; ratio := Fl (1 # 10)%Q;
               orig := 3000; comp := 300 |} ],
       snd (main_results uneven_encoder batch_args batch_world)))
    by (vm_compute; reflexivity).
  split; [exact Hres|].
  destruct (totals_are_sums uneven_encoder batch_args batch_world _ _ Hres)
    as (s & Hmain & Hn & _ & Ho & Hc & Hr).
  exists s. split; [exact Hmain|]. rewrite Hn, Ho, Hc, Hr. vm_compute. auto.
Defined.

(** * Targets that are neither a directory nor a manifest *)

Section Targets.

Context {F : Type} `{!PyFloat F}.
Variable cwebp : FS -> string -> string -> option F * FS.

Lemma ensure_output_dir_eq args w :
  ensure_output_dir args w =
  match output_dir args with
  | Some o =>
      if Str.truthy o && negb (isdir_fs (fs w) o || isfile_fs (fs w) o)
      then
        match makedirs_fs (S (String.length o)) (fs w) o with
        | Some f' => (Ok tt, set_fs (log w (EvMakeDirs o)) f')
        | None => (Raise (SystemExit 1), log (log w (EvMakeDirs o)) EvLogError)
        end
      else (Ok tt, w)
  | None => (Ok tt, w)
  end.
Proof.
  unfold ensure_output_dir. destruct (output_dir args) as [o|]; [|reflexivity].
  destruct (Str.truthy o); [|reflexivity].
  unfold exists_, get_fs, bind, ret. cbn [andb].
  destruct (isdir_fs (fs w) o) eqn:Hd; [reflexivity|].
  destruct (isfile_fs (fs w) o) eqn:Hf; [reflexivity|].
  cbn [orb negb]. unfold try_except. rewrite makedirs_eq, Hd, Hf.
  now destruct (makedirs_fs (S (String.length o)) (fs w) o).
Qed.



End Targets.



(** Why the target is classified in the file system the creation of the
    output root leaves: [/work/out] does not exist when the script starts,
    [-o /work/out/deep] brings it into being, and the script processes it
    as a directory and ends with status 0. *)
Lemma target_made_with_the_output_root :
  isdir_fs scans_fs "/work/out" = false /\
  isfile_fs scans_fs "/work/out" = false /\
  isdir_fs (fs (after_output_dir
                  {| target := Some "/work/out"; output_dir := Some "/work/out/deep" |}
                  scans_world)) "/work/out" = true /\
  fst (script half_encoder
         {| target := Some "/work/out"; output_dir := Some "/work/out/deep" |}
         scans_world) = 0.
Proof. vm_compute. repeat split; reflexivity. Qed.

(** * A second run of the same directory *)

Section SecondRun.

Context {F : Type} `{!PyFloat F}.
Variable cwebp : FS -> string -> string -> option F * FS.

Lemma webp_suffix_last b : last (Str.chars (b +:+ "_webp")) = Some "p"%char.
Proof. now rewrite chars_app, last_app. Qed.

(** The destination does not end with a separator. *)
Lemma webp_dir_last tiff_dir output_root :
  last (Str.chars (webp_dir_of tiff_dir output_root)) = Some "p"%char.
Proof.
  unfold webp_dir_of. destruct output_root as [r|]; [destruct (Str.truthy r)|];
    apply join_last, webp_suffix_last.
Qed.

(** The destination is not the source. *)
Lemma webp_dir_neq tiff_dir output_root : webp_dir_of tiff_dir output_root <> tiff_dir.
Proof.
  intros E.
  assert (N : PosixPath.sep ∉ Str.chars (PosixPath.basename tiff_dir +:+ "_webp")).
  { rewrite chars_app, elem_of_app. intros [H'|H'].
    - now apply (basename_no_sep tiff_dir).
    - apply list_elem_of_In in H'. vm_compute in H'. decompose [or] H';
        discriminate || contradiction. }
  assert (B : PosixPath.basename (webp_dir_of tiff_dir output_root)
              = PosixPath.basename tiff_dir +:+ "_webp").
  { unfold webp_dir_of. destruct output_root as [r|]; [destruct (Str.truthy r)|];
      now apply basename_join. }
  rewrite E in B. apply (f_equal (fun s => length (Str.chars s))) in B.
  rewrite chars_app, length_app in B. cbn in B. lia.
Qed.

Lemma splitext_fst_prefix bn :
  exists k, Str.chars bn = Str.chars (fst (PosixPath.splitext bn)) ++ k.
Proof.
  unfold PosixPath.splitext.
  destruct (_ <? _); [destruct (forallb _ _)|]; cbn [fst];
    try (exists []; now rewrite app_nil_r).
  unfold Str.slice_to. rewrite chars_of_chars. eexists. symmetry. apply take_drop.
Qed.

Lemma stem_no_sep p : PosixPath.sep ∉ Str.chars (stem p).
Proof.
  unfold stem. destruct (splitext_fst_prefix (PosixPath.basename p)) as [k Hk].
  intros Hin. apply (basename_no_sep p). rewrite Hk. apply elem_of_app. now left.
Qed.

(** The output of a file goes into the destination, under the stem of the
    file and the WebP extension. *)
Lemma output_path_parts webp_dir p c :
  last (Str.chars webp_dir) = Some c -> c <> PosixPath.sep ->
  PosixPath.dirname (output_path_of webp_dir p) = webp_dir /\
  PosixPath.basename (output_path_of webp_dir p) = stem p +:+ ".webp".
Proof.
  intros L Hc.
  assert (N : PosixPath.sep ∉ Str.chars (stem p +:+ ".webp")).
  { rewrite chars_app, elem_of_app. intros [H'|H'].
    - now apply (stem_no_sep p).
    - apply list_elem_of_In in H'. vm_compute in H'. decompose [or] H';
        discriminate || contradiction. }
  unfold output_path_of. split.
  - now apply (dirname_join _ _ c).
  - now apply basename_join.
Qed.

(** What one iteration that returns has done. *)
Lemma convert_one_inv webp_dir st p w st' w' :
  convert_one cwebp webp_dir st p w = (Ok st', w') ->
  exists r f',
    cwebp (fs w) p (output_path_of webp_dir p) = (r, f') /\ fs w' = f' /\
    ((exists t, r = Some t) /\ ls_success_count st' = ls_success_count st + 1 \/
     r = None /\ st' = st).
Proof.
  rewrite convert_one_eq. destruct (files (fs w) !! p) as [x|]; [|discriminate].
  destruct (cwebp (fs w) p (output_path_of webp_dir p)) as [[t|] f'].
  - destruct (files f' !! output_path_of webp_dir p) as [y|]; [|discriminate].
    destruct (st_size x =? 0); [discriminate|].
    intros [= <- <-]. exists (Some t), f'. cbn.
    split; [reflexivity|]. split; [reflexivity|]. left. eauto.
  - intros [= <- <-]. exists None, f'. cbn. auto.
Qed.

(** The loop keeps the listing of the source and the regular files of the
    destination; it counts at most one success per file, and when it counts
    one for every file, the output of every file is listed. *)
Lemma loop_invariant webp_dir tiff_dir c :
  last (Str.chars webp_dir) = Some c -> c <> PosixPath.sep -> webp_dir <> tiff_dir ->
  lists_output cwebp -> keeps_files cwebp -> keeps_listing cwebp tiff_dir ->
  forall work st w st' w' dest,
    for_ work st (convert_one cwebp webp_dir) w = (Ok st', w') ->
    dirs (fs w) !! webp_dir = Some dest ->
    ls_success_count st' <= ls_success_count st + Z.of_nat (length work) /\
    dirs (fs w') !! tiff_dir = dirs (fs w) !! tiff_dir /\
    exists dest',
      dirs (fs w') !! webp_dir = Some dest' /\
      (forall e, e ∈ dest -> is_file e = true -> e ∈ dest') /\
      (ls_success_count st' = ls_success_count st + Z.of_nat (length work) ->
       forall p, p ∈ work -> {| name := stem p +:+ ".webp"; kind := KFile |} ∈ dest').
Proof.
  intros L Hc Hne Hlists Hkeeps Hsrc.
  induction work as [|p work IH]; intros st w st' w' dest Hrun Hdest.
  - cbn in Hrun. injection Hrun as <- <-. split; [cbn; lia|]. split; [reflexivity|].
    exists dest. split; [assumption|]. split; [auto|]. intros _ p Hp.
    now apply elem_of_nil in Hp.
  - cbn [for_] in Hrun. unfold bind in Hrun.
    destruct (convert_one cwebp webp_dir st p w) as [[st1|e] w1] eqn:Hone; [|discriminate].
    destruct (convert_one_inv _ _ _ _ _ _ Hone) as (r & f' & Henc & Hfs & Hcase).
    destruct (output_path_parts webp_dir p c L Hc) as [Hdir Hbase].
    destruct (Hkeeps _ _ _ _ _ _ _ Henc Hdest) as (dest1 & Hdest1 & Hkept1).
    assert (Hsrc1 : dirs (fs w1) !! tiff_dir = dirs (fs w) !! tiff_dir).
    { rewrite Hfs. apply (Hsrc _ _ _ _ _ Henc). now rewrite Hdir. }
    rewrite <- Hfs in Hdest1.
    destruct (IH _ _ _ _ _ Hrun Hdest1) as (Hle & Hsrc' & dest' & Hdest' & Hkept' & Hall).
    assert (Hstep : ls_success_count st1 <= ls_success_count st + 1)
      by (destruct Hcase as [[_ ->]|[_ ->]]; lia).
    split; [cbn [length]; lia|]. split; [congruence|].
    exists dest'. split; [assumption|]. split.
    { intros e He Hf. apply Hkept'; [|assumption]. now apply Hkept1. }
    intros Hcount q Hq. cbn [length] in Hcount.
    destruct Hcase as [[[t ->] Hst1]|[_ ->]]; [|lia].
    apply elem_of_cons in Hq as [->|Hq].
    + apply Hkept'; [|reflexivity].
      rewrite <- Hdir in Hdest.
      destruct (Hlists _ _ _ _ _ _ Henc Hdest) as (es' & Hes' & Hin).
      rewrite Hdir, <- Hfs, Hdest1 in Hes'. injection Hes' as <-.
      now rewrite Hbase in Hin.
    + apply Hall; [lia|assumption].
Qed.

(** What the selection read when it returned. *)
Lemma files_to_convert_inv tiff_dir output_root w work wa :
  files_to_convert tiff_dir output_root false w = (Ok work, wa) ->
  exists es dest,
    dirs (fs wa) !! tiff_dir = Some es /\
    dirs (fs wa) !! webp_dir_of tiff_dir output_root = Some dest /\
    work = not_converted (tiff_files_of tiff_dir es) (converted_of dest).
Proof.
  intros Hsel. destruct (files_to_convert_effects _ _ _ _ _ _ Hsel) as (Hfs & _ & _).
  rewrite Hfs. revert Hsel. unfold files_to_convert, after_makedirs, bind.
  destruct (makedirs (webp_dir_of tiff_dir output_root) w) as [[[]|e] wm]; [|discriminate].
  rewrite !scandir_eq. cbn [snd fs log].
  destruct (dirs (fs wm) !! tiff_dir) as [es|]; [|discriminate].
  destruct (dirs (fs wm) !! webp_dir_of tiff_dir output_root) as [dest|]; [|discriminate].
  intros [= <- _]. eauto.
Qed.

(** The statistics of a directory keep the count of the loop. *)
Lemma directory_stats_count (st : loop_state F) w r w' :
  directory_stats st w = (Ok r, w') -> count r = ls_success_count st /\ w' = w.
Proof.
  unfold directory_stats. destruct (file_sizes st).
  - intros [= <- <-]. auto.
  - unfold bind, py_truediv, raise, ret. destruct (_ =? 0); [discriminate|].
    intros [= <- <-]. auto.
Qed.

Lemma process_directory_inv tiff_dir output_root force w work wa r w1 :
  files_to_convert tiff_dir output_root force w = (Ok work, wa) ->
  process_directory cwebp tiff_dir output_root force w = (Ok r, w1) ->
  exists st,
    for_ work loop_init (convert_one cwebp (webp_dir_of tiff_dir output_root)) wa
      = (Ok st, w1) /\
    count r = ls_success_count st.
Proof.
  intros Hsel. unfold process_directory. rewrite (bind_ok _ _ _ _ _ Hsel).
  destruct work as [|p work].
  - intros [= <- <-]. exists loop_init. auto.
  - unfold bind.
    destruct (for_ (p :: work) loop_init _ wa) as [[st|e] wl]; [|discriminate].
    intros Hstats. apply directory_stats_count in Hstats as [Hcount ->]. eauto.
Qed.

Lemma filter_all_out {A} (p : A -> bool) (l : list A) :
  (forall x, x ∈ l -> p x = true) -> filter (fun x => negb (p x)) l = [].
Proof.
  induction l as [|x l IH]; intros Hall; [reflexivity|].
  rewrite (filter_cons_bool (fun x => negb (p x))).
  rewrite (Hall x) by (apply elem_of_cons; now left). cbn [negb].
  apply IH. intros y Hy. apply Hall. apply elem_of_cons. now right.
Qed.

Lemma elem_of_tiff_files tiff_dir es p :
  p ∈ tiff_files_of tiff_dir es ->
  exists e, p = entry_path tiff_dir e /\ is_tiff_name (name e) = true.
Proof.
  unfold tiff_files_of. rewrite list_elem_of_In, in_map_iff.
  intros (e & <- & Hin). apply list_elem_of_In, list_elem_of_filter in Hin as [Hp _].
  apply Is_true_true, andb_true_iff in Hp as [_ Ht]. eauto.
Qed.

(** C3.  With an encoder that lists what it writes, removes nothing from a
    listing and leaves the source directory alone: when a first run with
    [force_convert] false returns and has counted a success for every file
    it selected, a second run from the world the first one left selects no
    file, returns five zeros, calls no encoder and changes no file. *)
Theorem second_run_converts_nothing tiff_dir output_root w work wa r1 w1 :
  lists_output cwebp -> keeps_files cwebp -> keeps_listing cwebp tiff_dir ->
  files_to_convert tiff_dir output_root false w = (Ok work, wa) ->
  process_directory cwebp tiff_dir output_root false w = (Ok r1, w1) ->
  count r1 = Z.of_nat (length work) ->
  exists w2,
    files_to_convert tiff_dir output_root false w1 = (Ok [], w2) /\
    process_directory cwebp tiff_dir output_root false w1 = (Ok zero_result, w2) /\
    fs w2 = fs w1 /\
    trace w2 = trace w1 ++ [EvMakeDirs (webp_dir_of tiff_dir output_root);
                            EvScanDir tiff_dir;
                            EvScanDir (webp_dir_of tiff_dir output_root)].
Proof.
  intros Hlists Hkeeps Hsrc Hsel Hrun Hcount.
  destruct (files_to_convert_inv _ _ _ _ _ Hsel) as (es & dest & Hes & Hdest & Hwork).
  destruct (process_directory_inv _ _ _ _ _ _ _ _ Hsel Hrun) as (st & Hloop & Hst).
  assert (Hp : "p"%char <> PosixPath.sep) by discriminate.
  destruct (loop_invariant _ tiff_dir _ (webp_dir_last tiff_dir output_root) Hp
              (webp_dir_neq tiff_dir output_root) Hlists Hkeeps Hsrc
              _ _ _ _ _ _ Hloop Hdest)
    as (_ & Hes1 & dest1 & Hdest1 & Hkept & Hall).
  rewrite Hes in Hes1.
  assert (Hlisted : forall p, p ∈ work ->
            {| name := stem p +:+ ".webp"; kind := KFile |} ∈ dest1).
  { apply Hall. cbn. lia. }
  assert (Hmk : makedirs (webp_dir_of tiff_dir output_root) w1
                = (Ok tt, log w1 (EvMakeDirs (webp_dir_of tiff_dir output_root)))).
  { apply makedirs_idempotent. rewrite Hdest1. eauto. }
  assert (Hafter : after_makedirs (webp_dir_of tiff_dir output_root) w1
                   = log w1 (EvMakeDirs (webp_dir_of tiff_dir output_root))).
  { unfold after_makedirs. now rewrite Hmk. }
  assert (Hsel2 : files_to_convert tiff_dir output_root false w1 =
            (Ok [], log (log (log w1 (EvMakeDirs (webp_dir_of tiff_dir output_root)))
                             (EvScanDir tiff_dir))
                        (EvScanDir (webp_dir_of tiff_dir output_root)))).
  { rewrite (files_to_convert_eq _ _ _ _ es); rewrite ?Hafter; cbn [fs log];
      [|now rewrite Hmk|assumption].
    rewrite Hdest1. f_equal. f_equal.
    rewrite not_converted_counterpart. apply filter_all_out.
    intros p Hin. destruct (has_counterpart dest p) eqn:Hhad.
    - apply has_counterpart_true in Hhad as (e & He & Hf & Hw & Hs).
      apply has_counterpart_true. exists e. split; [now apply Hkept|auto].
    - assert (Hpw : p ∈ work).
      { rewrite Hwork, not_converted_counterpart. apply list_elem_of_filter.
        split; [|assumption]. now rewrite Hhad. }
      apply has_counterpart_true.
      exists {| name := stem p +:+ ".webp"; kind := KFile |}.
      split; [now apply Hlisted|]. split; [reflexivity|].
      cbn [name]. split; [apply is_webp_name_app|].
      destruct (elem_of_tiff_files _ _ _ Hin) as (e & -> & Ht).
      destruct (stem_of_tiff tiff_dir (name e) Ht) as [Hn Hx].
      unfold entry_path. now rewrite splitext_webp. }
  eexists. split; [exact Hsel2|]. split.
  - unfold process_directory. now rewrite (bind_ok _ _ _ _ _ Hsel2).
  - cbn [fs trace log]. split; [reflexivity|]. now rewrite <- !app_assoc.
Qed.

End SecondRun.

(** The sample encoder meets what the second run needs. *)
Lemma half_encoder_lists_output : lists_output half_encoder.
Proof.
  intros f i o t f' es Henc Hd. unfold half_encoder in Henc.
  destruct (files f !! i); [|discriminate].
  destruct (isdir_fs f o); [discriminate|].
  injection Henc as _ <-. cbn [dirs]. unfold list_file. rewrite Hd.
  destruct (existsb _ es) eqn:Hex.
  - exists es. split; [assumption|].
    apply existsb_exists in Hex as (e & Hin & He).
    apply andb_true_iff in He as [Hf Hn]. apply String.eqb_eq in Hn.
    destruct e as [n k]. unfold is_file in Hf. cbn in Hf, Hn.
    destruct k; try discriminate. subst n. now apply list_elem_of_In.
  - eexists. rewrite lookup_insert_eq. split; [reflexivity|].
    apply elem_of_app. right. apply elem_of_cons. now left.
Qed.

Lemma half_encoder_keeps_files : keeps_files half_encoder.
Proof.
  intros f i o r f' d es Henc Hd. unfold half_encoder in Henc.
  destruct (files f !! i); [destruct (isdir_fs f o)|];
    injection Henc as _ <-; try (exists es; now auto).
  cbn [dirs]. unfold list_file.
  destruct (dirs f !! PosixPath.dirname o) as [es0|] eqn:H0;
    [destruct (existsb _ es0)|]; try (exists es; now auto).
  destruct (decide (PosixPath.dirname o = d)) as [E|Hne].
  - rewrite E in *. rewrite lookup_insert_eq. rewrite Hd in H0. injection H0 as <-.
    eexists. split; [reflexivity|]. intros e He _. apply elem_of_app. now left.
  - rewrite lookup_insert_ne by assumption. exists es. auto.
Qed.

Lemma half_encoder_keeps_listing tiff_dir : keeps_listing half_encoder tiff_dir.
Proof.
  intros f i o r f' Henc Hne. unfold half_encoder in Henc.
  destruct (files f !! i); [destruct (isdir_fs f o)|];
    injection Henc as _ <-; try reflexivity.
  cbn [dirs]. unfold list_file.
  destruct (dirs f !! PosixPath.dirname o) as [es0|]; [destruct (existsb _ es0)|];
    try reflexivity.
  now rewrite lookup_insert_ne.
Qed.

Lemma second_run_converts_nothing_witness :
  exists w2,
    process_directory half_encoder "/work/scans" None false
      (snd (process_directory half_encoder "/work/scans" None false scans_world))
    = (Ok zero_result, w2).
Proof.
  destruct (second_run_converts_nothing half_encoder "/work/scans" None scans_world
              ["/work/scans/a.tif"; "/work/scans/b.tiff"]
              (snd (files_to_convert "/work/scans" None false scans_world))
              {| count := 2; time_spent := Fl 1%Q; ratio := Fl (1 # 2)%Q;
                 orig := 3000; comp := 1500 |}
              (snd (process_directory half_encoder "/work/scans" None false scans_world)))
    as (w2 & _ & Hrun & _).
  - apply half_encoder_lists_output.
  - apply half_encoder_keeps_files.
  - apply half_encoder_keeps_listing.
  - vm_compute. reflexivity.
  - vm_compute. reflexivity.
  - reflexivity.
  - exists w2. exact Hrun.
Defined.

(** * The exit status of the script *)

Section ExitStatus.

Context {F : Type} `{!PyFloat F}.
Variable cwebp : FS -> string -> string -> option F * FS.

Lemma eo_ret {A} code (a : A) : exits_only_with code (ret a).
Proof. intros w n w' [=]. Qed.

Lemma eo_raise {A} code e :
  (forall n, e = SystemExit n -> n = code) -> exits_only_with code (@raise A e).
Proof. intros He w n w' [= -> _]. now apply He. Qed.

Lemma eo_bind {A B} code (c : M A) (k : A -> M B) :
  exits_only_with code c -> (forall a, exits_only_with code (k a)) ->
  exits_only_with code (bind c k).
Proof.
  intros Hc Hk w n w'. unfold bind.
  destruct (c w) as [[a|e] w1] eqn:Hcw.
  - apply Hk.
  - intros [= -> <-]. now apply (Hc _ _ _ Hcw).
Qed.

Lemma eo_for {A S} code (l : list A) (body : S -> A -> M S) :
  (forall s x, exits_only_with code (body s x)) ->
  forall s, exits_only_with code (for_ l s body).
Proof.
  intros Hb. induction l as [|x l IH]; intros s; cbn [for_].
  - apply eo_ret.
  - apply eo_bind; [apply Hb|apply IH].
Qed.

Lemma eo_log code e : exits_only_with code (log_event e).
Proof. intros w n w' [=]. Qed.

Lemma eo_get_fs code : exits_only_with code get_fs.
Proof. intros w n w' [=]. Qed.

Lemma eo_put_fs code f : exits_only_with code (put_fs f).
Proof. intros w n w' [=]. Qed.

Lemma eo_scandir code p : exits_only_with code (scandir p).
Proof.
  intros w n w'. rewrite scandir_eq. now destruct (dirs (fs w) !! p).
Qed.

Lemma eo_getsize code p : exits_only_with code (getsize p).
Proof.
  intros w n w'. rewrite getsize_eq. now destruct (files (fs w) !! p).
Qed.

Lemma eo_makedirs code p : exits_only_with code (makedirs p).
Proof.
  intros w n w'. rewrite makedirs_eq.
  destruct (isdir_fs (fs w) p); [discriminate|].
  destruct (isfile_fs (fs w) p); [discriminate|].
  now destruct (makedirs_fs (S (String.length p)) (fs w) p).
Qed.

Lemma eo_truediv code (x : num F) d : exits_only_with code (py_truediv x d).
Proof. intros w n w'. unfold py_truediv, raise, ret. now destruct (d =? 0). Qed.

Lemma eo_find_tiff_dirs code root_path : exits_only_with code (find_tiff_dirs root_path).
Proof.
  unfold find_tiff_dirs. apply eo_bind; [apply eo_scandir|]. intros es.
  apply eo_for. intros acc e. unfold find_tiff_dirs_step.
  destruct (negb (is_dir e)); [apply eo_ret|].
  apply eo_bind; [apply eo_scandir|]. intros it. apply eo_ret.
Qed.

Lemma eo_convert_one code webp_dir st p :
  exits_only_with code (convert_one cwebp webp_dir st p).
Proof.
  intros w n w'. rewrite convert_one_eq.
  destruct (files (fs w) !! p) as [x|]; [|discriminate].
  destruct (cwebp (fs w) p (output_path_of webp_dir p)) as [[t|] f']; [|discriminate].
  destruct (files f' !! output_path_of webp_dir p); [|discriminate].
  now destruct (st_size x =? 0).
Qed.

Lemma eo_files_to_convert code tiff_dir output_root force :
  exits_only_with code (files_to_convert tiff_dir output_root force).
Proof.
  unfold files_to_convert. apply eo_bind; [apply eo_makedirs|]. intros _.
  apply eo_bind; [apply eo_scandir|]. intros es.
  destruct force; [apply eo_ret|].
  apply eo_bind; [apply eo_scandir|]. intros dest. apply eo_ret.
Qed.

Lemma eo_process_directory code tiff_dir output_root force :
  exits_only_with code (process_directory cwebp tiff_dir output_root force).
Proof.
  unfold process_directory. apply eo_bind; [apply eo_files_to_convert|]. intros work.
  destruct work as [|p work]; [apply eo_ret|].
  apply eo_bind; [apply eo_for; intros; apply eo_convert_one|]. intros st.
  unfold directory_stats. destruct (file_sizes st); [apply eo_ret|].
  apply eo_bind; [apply eo_truediv|]. intros r. apply eo_ret.
Qed.

Lemma eo_process_and_add code output_root force t d :
  exits_only_with code (process_and_add cwebp output_root force t d).
Proof.
  unfold process_and_add. apply eo_bind; [apply eo_process_directory|].
  intros r. apply eo_ret.
Qed.

Lemma eo_scan_mode code output_root : exits_only_with code (scan_mode cwebp output_root).
Proof.
  unfold scan_mode. apply eo_bind; [intros w n w' [=]|]. intros here.
  apply eo_bind; [apply eo_find_tiff_dirs|]. intros ds.
  apply eo_for. intros. apply eo_process_and_add.
Qed.

Lemma eo_run_target args : exits_only_with 1 (run_target cwebp args).
Proof.
  unfold run_target. destruct (target args) as [tg|]; [|apply eo_scan_mode].
  destruct (Str.truthy tg); [|apply eo_scan_mode].
  apply eo_bind; [apply eo_bind; [apply eo_get_fs|intros; apply eo_ret]|]. intros d.
  destruct d; [apply eo_process_and_add|].
  apply eo_bind; [apply eo_bind; [apply eo_get_fs|intros; apply eo_ret]|]. intros f.
  destruct (f && Str.endswith tg ".txt").
  - apply eo_bind.
    + unfold read_lines. apply eo_bind; [apply eo_get_fs|]. intros fsys.
      destruct (files fsys !! tg) as [x|]; [|apply eo_raise; discriminate].
      destruct (content x); [apply eo_ret|apply eo_raise; discriminate..].
    + intros lines. apply eo_for. intros t d. unfold manifest_step.
      apply eo_bind; [apply eo_bind; [apply eo_get_fs|intros; apply eo_ret]|].
      intros b. destruct b; [apply eo_process_and_add|].
      apply eo_bind; [apply eo_log|intros; apply eo_ret].
  - apply eo_bind; [apply eo_log|]. intros _. apply eo_raise. now intros n [= <-].
Qed.

Lemma eo_main args : exits_only_with 1 (main cwebp args).
Proof.
  intros w n w'. rewrite main_eq. unfold bind.
  rewrite ensure_output_dir_eq.
  assert (Hrun : forall w1, match run_target cwebp args w1 with
                            | (Ok t, w2) => (Ok (summary_of t), w2)
                            | (Raise e, w2) => (Raise e, w2)
                            end = (Raise (SystemExit n), w') -> n = 1).
  { intros w1. destruct (run_target cwebp args w1) as [[t|e] w2] eqn:Hr; [discriminate|].
    intros [= -> <-]. now apply (eo_run_target args _ _ _ Hr). }
  destruct (output_dir args) as [o|]; [|apply Hrun].
  destruct (Str.truthy o && negb (isdir_fs (fs w) o || isfile_fs (fs w) o)); [|apply Hrun].
  destruct (makedirs_fs (S (String.length o)) (fs w) o); [apply Hrun|].
  now intros [= <- _].
Qed.

(** X1.  The script ends with status 0, 1 or 2.  When [argparse] rejects
    the command line it ends with 2, and after the help with 0, nothing
    having been processed.  For a command line that is parsed it ends with
    0 or 1: with 0 exactly when [main] returns, so that every exception of
    the processing (a directory that cannot be listed, a size or a manifest
    that cannot be read, a division by zero) gives status 1, as
    [sys.exit(1)] does. *)
Theorem exit_status_of_the_script c w :
  (fst (script_cli cwebp c w) = 0 \/ fst (script_cli cwebp c w) = 1 \/
   fst (script_cli cwebp c w) = 2) /\
  match c with
  | Rejected => script_cli cwebp c w = (2, w)
  | HelpAsked => script_cli cwebp c w = (0, w)
  | Parsed args =>
      script_cli cwebp c w = script cwebp args w /\
      (fst (script cwebp args w) = 0 \/ fst (script cwebp args w) = 1) /\
      (fst (script cwebp args w) = 0 <-> exists s, fst (main cwebp args w) = Ok s) /\
      snd (script cwebp args w) = snd (main cwebp args w)
  end.
Proof.
  assert (Hs : forall args,
            (fst (script cwebp args w) = 0 \/ fst (script cwebp args w) = 1) /\
            (fst (script cwebp args w) = 0 <-> exists s, fst (main cwebp args w) = Ok s) /\
            snd (script cwebp args w) = snd (main cwebp args w)).
  { intros args. unfold script.
    destruct (main cwebp args w) as [[s|e] w'] eqn:Hm; cbn [fst snd].
    - split; [now left|]. split; [|reflexivity]. split; eauto.
    - assert (He : (let (z, _) := match e with
                                  | SystemExit n => (n, w')
                                  | _ => (1, w')
                                  end in z) = 1).
      { destruct e as [p| | |n]; try reflexivity. apply (eo_main args _ _ _ Hm). }
      split; [right|split].
      + destruct e; exact He.
      + split; [|intros [s [=]]]. intros H0.
        destruct e; cbn [fst] in H0, He; try discriminate; lia.
      + now destruct e. }
  destruct c as [args| |].
  - assert (Hc : script_cli cwebp (Parsed args) w = script cwebp args w) by reflexivity.
    split; [|split; [exact Hc|apply Hs]].
    rewrite Hc. destruct (Hs args) as [[H|H] _]; auto.
  - split; [now left|reflexivity].
  - split; [now right; right|reflexivity].
Qed.

End ExitStatus.

(** * What a run of a directory does and reports *)

Section DirectoryRuns.

Context {F : Type} `{!PyFloat F}.
Variable cwebp : FS -> string -> string -> option F * FS.

Lemma encodes_app tr1 tr2 : encodes (tr1 ++ tr2) = encodes tr1 ++ encodes tr2.
Proof. unfold encodes. apply filter_app. Qed.

(** An iteration that returns has called the encoder once, for its file. *)
Lemma convert_one_encodes webp_dir st p w st' w' :
  convert_one cwebp webp_dir st p w = (Ok st', w') ->
  encodes (trace w') = encodes (trace w) ++ [EvEncode p (output_path_of webp_dir p)].
Proof.
  rewrite convert_one_eq. destruct (files (fs w) !! p) as [x|]; [|discriminate].
  destruct (cwebp (fs w) p (output_path_of webp_dir p)) as [[t|] f'].
  - destruct (files f' !! output_path_of webp_dir p); [|discriminate].
    destruct (st_size x =? 0); [discriminate|]. intros [= _ <-].
    cbn [trace log set_fs]. rewrite !encodes_app. cbn. now rewrite !app_nil_r.
  - intros [= _ <-]. cbn [trace log set_fs]. rewrite !encodes_app. cbn.
    now rewrite !app_nil_r.
Qed.

Lemma for_convert_encodes webp_dir work st w st' w' :
  for_ work st (convert_one cwebp webp_dir) w = (Ok st', w') ->
  encodes (trace w') =
  encodes (trace w) ++ map (fun p => EvEncode p (output_path_of webp_dir p)) work.
Proof.
  revert st w. induction work as [|p work IH]; intros st w.
  - intros [= _ <-]. cbn. now rewrite app_nil_r.
  - cbn [for_]. unfold bind.
    destruct (convert_one cwebp webp_dir st p w) as [[st1|e] w1] eqn:Hone; [|discriminate].
    intros Hrest. rewrite (IH _ _ Hrest), (convert_one_encodes _ _ _ _ _ _ Hone).
    now rewrite <- app_assoc.
Qed.

(** X2.  A run of a directory that returns has called the encoder exactly
    once for every file of its work list, in the order of the list, each
    time with the output path of that file, and made no other encoder
    call. *)
Theorem every_selected_file_is_encoded_once tiff_dir output_root force w work wa r w' :
  files_to_convert tiff_dir output_root force w = (Ok work, wa) ->
  process_directory cwebp tiff_dir output_root force w = (Ok r, w') ->
  encodes (trace w') =
  encodes (trace w) ++
  map (fun p => EvEncode p (output_path_of (webp_dir_of tiff_dir output_root) p)) work.
Proof.
  intros Hsel Hrun.
  destruct (process_directory_inv cwebp _ _ _ _ _ _ _ _ Hsel Hrun) as (st & Hloop & _).
  destruct (files_to_convert_effects _ _ _ _ _ _ Hsel) as (_ & _ & Htr).
  rewrite (for_convert_encodes _ _ _ _ _ _ Hloop), Htr, encodes_app.
  f_equal. destruct force; cbn; now rewrite app_nil_r.
Qed.

(** The loop counts one success for each size it records, and keeps the
    time at what it was when it records none. *)
Lemma for_convert_counts webp_dir work st w st' w' :
  for_ work st (convert_one cwebp webp_dir) w = (Ok st', w') ->
  exists added,
    file_sizes st' = file_sizes st ++ added /\
    ls_success_count st' = ls_success_count st + Z.of_nat (length added) /\
    (length added <= length work)%nat /\
    (added = [] -> ls_total_time st' = ls_total_time st).
Proof.
  revert st w. induction work as [|p work IH]; intros st w.
  - intros [= <- _]. exists []. rewrite app_nil_r. cbn. split; [reflexivity|].
    split; [lia|]. split; [lia|reflexivity].
  - cbn [for_]. unfold bind.
    destruct (convert_one cwebp webp_dir st p w) as [[st1|e] w1] eqn:Hone; [|discriminate].
    intros Hrest. destruct (IH _ _ Hrest) as (added & Hsizes & Hcount & Hlen & Htime).
    revert Hone. rewrite convert_one_eq.
    destruct (files (fs w) !! p) as [x|]; [|discriminate].
    destruct (cwebp (fs w) p (output_path_of webp_dir p)) as [[t|] f'].
    + destruct (files f' !! output_path_of webp_dir p) as [y|]; [|discriminate].
      destruct (st_size x =? 0); [discriminate|]. intros [= <- _].
      cbn [file_sizes ls_success_count ls_total_time] in *.
      eexists (_ :: added). rewrite <- app_assoc in Hsizes.
      split; [exact Hsizes|]. cbn [length]. split; [lia|]. split; [lia|discriminate].
    + intros [= <- _]. exists added. split; [assumption|]. split; [assumption|].
      split; [cbn [length]; lia|assumption].
Qed.

(** X3.  A run of a directory that returns reports a count between 0 and
    the number of files it selected; and when it counts no success (every
    encoding failed) it returns the five zeros it returns for an empty work
    list. *)
Theorem failures_only_give_zero_result tiff_dir output_root force w work wa r w' :
  files_to_convert tiff_dir output_root force w = (Ok work, wa) ->
  process_directory cwebp tiff_dir output_root force w = (Ok r, w') ->
  0 <= count r <= Z.of_nat (length work) /\
  (count r = 0 -> r = zero_result).
Proof.
  intros Hsel. unfold process_directory. rewrite (bind_ok _ _ _ _ _ Hsel).
  destruct work as [|p work].
  - intros [= <- _]. cbn. split; [lia|reflexivity].
  - unfold bind.
    destruct (for_ (p :: work) loop_init _ wa) as [[st|e] wl] eqn:Hloop; [|discriminate].
    destruct (for_convert_counts _ _ _ _ _ _ Hloop) as (added & Hsizes & Hcount & Hlen & Htime).
    cbn [file_sizes ls_success_count ls_total_time loop_init app] in *.
    unfold directory_stats. rewrite Hsizes. destruct added as [|a added].
    + intros [= <- _]. cbn [count]. cbn [length] in *.
      split; [lia|]. intros Hz. unfold zero_result. now rewrite (Htime eq_refl), Hz.
    + unfold bind, py_truediv, raise, ret. destruct (_ =? 0); [discriminate|].
      intros [= <- _]. cbn [count]. rewrite Hcount. cbn [length] in *. split; [lia|lia].
Qed.

(** X4.  A source file of 0 bytes that the encoder converts ends the run of
    the directory with a [ZeroDivisionError]: the ratio of the sizes is
    taken without a test.  The files that follow in the work list are not
    touched, and the statistics gathered so far are lost. *)
Theorem empty_source_file_aborts webp_dir st p rest w x t f' y :
  files (fs w) !! p = Some x ->
  st_size x = 0 ->
  cwebp (fs w) p (output_path_of webp_dir p) = (Some t, f') ->
  files f' !! output_path_of webp_dir p = Some y ->
  for_ (p :: rest) st (convert_one cwebp webp_dir) w =
    (Raise ZeroDivisionError,
     log (set_fs (log (log w (EvGetSize p)) (EvEncode p (output_path_of webp_dir p))) f')
         (EvGetSize (output_path_of webp_dir p))).
Proof.
  intros Hx H0 Henc Hy. cbn [for_]. unfold bind.
  now rewrite convert_one_eq, Hx, Henc, Hy, H0.
Qed.

(** X5.  A source directory that cannot be listed makes [process_directory]
    raise an [OSError] once the destination has been created: the
    destination stays behind, empty when it was new, and the encoder is not
    called. *)
Theorem unlistable_source_leaves_destination tiff_dir output_root force w :
  fst (makedirs (webp_dir_of tiff_dir output_root) w) = Ok tt ->
  dirs (fs (after_makedirs (webp_dir_of tiff_dir output_root) w)) !! tiff_dir = None ->
  exists w',
    process_directory cwebp tiff_dir output_root force w = (Raise (OSError tiff_dir), w') /\
    fs w' = fs (after_makedirs (webp_dir_of tiff_dir output_root) w) /\
    is_Some (dirs (fs w') !! webp_dir_of tiff_dir output_root) /\
    trace w' = trace w ++ [EvMakeDirs (webp_dir_of tiff_dir output_root); EvScanDir tiff_dir].
Proof.
  intros Hm Hnone. eexists. split; [|split; [|split]].
  - unfold process_directory, files_to_convert. unfold bind at 1 2.
    rewrite (makedirs_ok _ _ Hm). unfold bind. rewrite scandir_eq, Hnone. reflexivity.
  - reflexivity.
  - cbn [fs log]. now apply makedirs_creates.
  - cbn [trace log]. now rewrite makedirs_trace, <- app_assoc.
Qed.

(** X6.  When the path of the destination is a regular file,
    [process_directory] raises an [OSError] at once: the source is not
    listed, the encoder is not called, and the file system is unchanged. *)
Theorem destination_is_a_file tiff_dir output_root force w :
  isdir_fs (fs w) (webp_dir_of tiff_dir output_root) = false ->
  isfile_fs (fs w) (webp_dir_of tiff_dir output_root) = true ->
  process_directory cwebp tiff_dir output_root force w =
    (Raise (OSError (webp_dir_of tiff_dir output_root)),
     log w (EvMakeDirs (webp_dir_of tiff_dir output_root))).
Proof.
  intros Hd Hf. unfold process_directory, files_to_convert. unfold bind at 1 2.
  now rewrite makedirs_eq, Hd, Hf.
Qed.

End DirectoryRuns.

Lemma every_selected_file_is_encoded_once_witness :
  encodes (trace (snd (process_directory half_encoder "/work/scans" None false scans_world)))
  = [EvEncode "/work/scans/a.tif" "/work/scans_webp/a.webp";
     EvEncode "/work/scans/b.tiff" "/work/scans_webp/b.webp"].
Proof.
  rewrite (every_selected_file_is_encoded_once half_encoder "/work/scans" None false
             scans_world ["/work/scans/a.tif"; "/work/scans/b.tiff"]
             (snd (files_to_convert "/work/scans" None false scans_world))
             {| count := 2; time_spent := Fl 1%Q; ratio := Fl (1 # 2)%Q;
                orig := 3000; comp := 1500 |}
             (snd (process_directory half_encoder "/work/scans" None false scans_world))).
  - vm_compute. reflexivity.
  - vm_compute. reflexivity.
  - vm_compute. reflexivity.
Defined.

Lemma failures_only_give_zero_result_witness :
  fst (process_directory failing_encoder "/work/scans" None false scans_world)
  = Ok zero_result.
Proof.
  destruct (failures_only_give_zero_result failing_encoder "/work/scans" None false
              scans_world ["/work/scans/a.tif"; "/work/scans/b.tiff"]
              (snd (files_to_convert "/work/scans" None false scans_world))
              {| count := 0; time_spent := I 0; ratio := I 0; orig := 0; comp := 0 |}
              (snd (process_directory failing_encoder "/work/scans" None false scans_world)))
    as [_ Hzero].
  - vm_compute. reflexivity.
  - vm_compute. reflexivity.
  - vm_compute. reflexivity.
Defined.

Lemma empty_source_file_aborts_witness :
  fst (for_ ["/work/scans/e.tif"; "/work/scans/b.tif"] loop_init
            (convert_one half_encoder "/work/scans_webp") empty_file_world)
  = Raise ZeroDivisionError.
Proof.
  rewrite (empty_source_file_aborts half_encoder "/work/scans_webp" loop_init
             "/work/scans/e.tif" ["/work/scans/b.tif"] empty_file_world (sized 0)
             (1 # 2)%Q
             (snd (half_encoder empty_file_fs "/work/scans/e.tif" "/work/scans_webp/e.webp"))
             (sized 0)).
  - reflexivity.
  - vm_compute. reflexivity.
  - reflexivity.
  - vm_compute. reflexivity.
  - vm_compute. reflexivity.
Defined.

Lemma unlistable_source_leaves_destination_witness :
  exists w',
    process_directory half_encoder "/work/missing" None false scans_world
      = (Raise (OSError "/work/missing"), w') /\
    dirs (fs w') !! "/work/missing_webp" = Some [].
Proof.
  destruct (unlistable_source_leaves_destination half_encoder "/work/missing" None false
              scans_world) as (w' & Hrun & Hfs & _).
  - vm_compute. reflexivity.
  - vm_compute. reflexivity.
  - exists w'. split; [exact Hrun|]. rewrite Hfs. vm_compute. reflexivity.
Defined.

Lemma destination_is_a_file_witness :
  process_directory half_encoder "/work/scans" None false blocked_world
  = (Raise (OSError "/work/scans_webp"), log blocked_world (EvMakeDirs "/work/scans_webp")).
Proof.
  apply (destination_is_a_file half_encoder "/work/scans" None false blocked_world);
    vm_compute; reflexivity.
Defined.

(** * The names of destinations and outputs *)

Section Names.

Lemma startswith_no_sep n : PosixPath.sep ∉ Str.chars n -> Str.startswith n "/" = false.
Proof.
  intros N. destruct (Str.startswith n "/") eqn:Hs; [|reflexivity].
  exfalso. now apply N, startswith_sep_elem.
Qed.

Lemma endswith_sep_false r c :
  last (Str.chars r) = Some c -> c <> PosixPath.sep -> Str.endswith r "/" = false.
Proof.
  intros L Hc. destruct (Str.endswith r "/") eqn:He; [|reflexivity].
  apply endswith_sep in He as [k Hk]. rewrite Hk, last_snoc in L. congruence.
Qed.

Lemma truthy_last r c : last (Str.chars r) = Some c -> Str.truthy r = true.
Proof. intros L. apply truthy_chars. intros E. now rewrite E in L. Qed.

(** [join] of a directory without final separator and a plain name. *)
Lemma join_plain r n c :
  last (Str.chars r) = Some c -> c <> PosixPath.sep -> PosixPath.sep ∉ Str.chars n ->
  PosixPath.join r n = r +:+ "/" +:+ n.
Proof.
  intros L Hc N. unfold PosixPath.join.
  now rewrite (startswith_no_sep _ N), (truthy_last _ _ L), (endswith_sep_false _ _ L Hc).
Qed.

Lemma webp_base_no_sep tiff_dir :
  PosixPath.sep ∉ Str.chars (PosixPath.basename tiff_dir +:+ "_webp").
Proof.
  rewrite chars_app, elem_of_app. intros [H'|H'].
  - now apply (basename_no_sep tiff_dir).
  - apply list_elem_of_In in H'. vm_compute in H'. decompose [or] H';
      discriminate || contradiction.
Qed.

(** X7.  The destination of a directory is named after it: its base name
    is the base name of the source followed by ["_webp"], whatever the
    output root.  Under an output root [r] it is [r/<base>_webp] ([r<base>_webp]
    when [r] ends with a separator); an empty output root counts as none. *)
Theorem destination_is_named_after_source tiff_dir :
  (forall output_root,
     PosixPath.basename (webp_dir_of tiff_dir output_root)
     = PosixPath.basename tiff_dir +:+ "_webp") /\
  webp_dir_of tiff_dir (Some "") = webp_dir_of tiff_dir None /\
  (forall r c,
     last (Str.chars r) = Some c -> c <> PosixPath.sep ->
     webp_dir_of tiff_dir (Some r) = r +:+ "/" +:+ PosixPath.basename tiff_dir +:+ "_webp") /\
  (forall r,
     Str.endswith r "/" = true ->
     webp_dir_of tiff_dir (Some r) = r +:+ PosixPath.basename tiff_dir +:+ "_webp").
Proof.
  pose proof (webp_base_no_sep tiff_dir) as N.
  split; [|split; [reflexivity|split]].
  - intros output_root. unfold webp_dir_of.
    destruct output_root as [r|]; [destruct (Str.truthy r)|]; now apply basename_join.
  - intros r c L Hc. unfold webp_dir_of. rewrite (truthy_last _ _ L).
    now apply (join_plain _ _ c).
  - intros r He. unfold webp_dir_of.
    assert (Ht : Str.truthy r = true).
    { apply endswith_sep in He as [k Hk]. apply truthy_chars. rewrite Hk. now destruct k. }
    rewrite Ht. unfold PosixPath.join.
    now rewrite (startswith_no_sep _ N), Ht, He.
Qed.

(** X8.  A source given with a final separator, as in [scans/], has an
    empty base name: without output root its destination is the directory
    [_webp] inside the source, not a sibling of it. *)
Theorem trailing_separator_puts_destination_inside d c :
  last (Str.chars d) = Some c -> c <> PosixPath.sep ->
  PosixPath.basename (d +:+ "/") = "" /\
  webp_dir_of (d +:+ "/") None = d +:+ "/" +:+ "_webp" /\
  PosixPath.dirname (webp_dir_of (d +:+ "/") None) = d.
Proof.
  intros L Hc.
  assert (Hb : PosixPath.basename (d +:+ "/") = "").
  { rewrite (basename_of_app _ (Str.chars d) []); [reflexivity| |apply not_elem_of_nil].
    now rewrite chars_app. }
  assert (Hn : PosixPath.sep ∉ Str.chars "") by apply not_elem_of_nil.
  assert (He : PosixPath.sep ∉ Str.chars "_webp").
  { intros H'. apply list_elem_of_In in H'. vm_compute in H'. decompose [or] H';
      discriminate || contradiction. }
  assert (Hd : PosixPath.dirname (d +:+ "/") = d).
  { rewrite <- (dirname_join d "" c L Hc Hn) at 2.
    now rewrite (join_plain _ _ c L Hc Hn). }
  assert (Hw : webp_dir_of (d +:+ "/") None = d +:+ "/" +:+ "_webp").
  { unfold webp_dir_of. rewrite Hb, Hd. now apply (join_plain _ _ c). }
  split; [exact Hb|]. split; [exact Hw|].
  rewrite Hw, <- (join_plain _ _ c L Hc He). now apply (dirname_join _ _ c).
Qed.

Lemma lower_app a b : Str.lower (a +:+ b) = Str.lower a +:+ Str.lower b.
Proof.
  apply chars_inj. now rewrite chars_app, !chars_lower, chars_app, map_app.
Qed.

(** X9.  The name given to an output is a WebP name and never a TIFF name,
    whatever the stem: a converted file is never taken for a source. *)
Theorem output_is_never_a_source s :
  is_webp_name (s +:+ ".webp") = true /\ is_tiff_name (s +:+ ".webp") = false.
Proof.
  split; [apply is_webp_name_app|].
  destruct (is_tiff_name (s +:+ ".webp")) eqn:Ht; [|reflexivity].
  destruct (is_tiff_name_last _ Ht) as (c & L & _ & _).
  unfold is_tiff_name in Ht.
  assert (Lw : last (Str.chars (Str.lower (s +:+ ".webp"))) = Some "p"%char).
  { rewrite lower_app, chars_app, last_app. reflexivity. }
  apply orb_true_iff in Ht as [Ht|Ht]; apply endswith_true in Ht as [k Hk];
    rewrite Hk, last_app in Lw; discriminate.
Qed.

(** X10.  A regular file [b.webp] in the destination marks every source
    named [b.e] as converted, whatever the extension [e]: with
    [force_convert] false none of them is selected, whether or not it was
    the one converted. *)
Theorem webp_file_marks_every_extension tiff_dir es dest b e :
  PosixPath.sep ∉ Str.chars b -> PosixPath.sep ∉ Str.chars e ->
  PosixPath.extsep ∉ Str.chars e ->
  (exists c, c ∈ Str.chars b /\ c <> PosixPath.extsep) ->
  regular (b +:+ ".webp") ∈ dest ->
  PosixPath.join tiff_dir (b +:+ "." +:+ e)
    ∉ not_converted (tiff_files_of tiff_dir es) (converted_of dest).
Proof.
  intros Nb Ne Nd Hb Hin. unfold not_converted. rewrite list_elem_of_filter.
  intros [Hp _]. apply Is_true_true, bool_decide_eq_true in Hp. apply Hp.
  apply in_converted_of. exists (regular (b +:+ ".webp")).
  split; [assumption|]. split; [reflexivity|]. cbn [name regular].
  split; [apply is_webp_name_app|].
  rewrite (splitext_webp _ Nb Hb). cbn [fst]. symmetry.
  unfold stem. rewrite basename_join.
  - now rewrite splitext_stem_ext.
  - rewrite !chars_app, !elem_of_app. intros [?|[H'|?]]; [auto| |auto].
    apply list_elem_of_In in H'. vm_compute in H'.
    decompose [or] H'; [discriminate|contradiction].
Qed.

End Names.

Lemma trailing_separator_puts_destination_inside_witness :
  webp_dir_of "/work/scans/" None = "/work/scans/_webp".
Proof.
  destruct (trailing_separator_puts_destination_inside "/work/scans" "s"%char)
    as (_ & Hw & _).
  - vm_compute. reflexivity.
  - discriminate.
  - exact Hw.
Defined.

Lemma webp_file_marks_every_extension_witness :
  "/work/scans/x.tiff"
    ∉ not_converted (tiff_files_of "/work/scans" [regular "x.tif"; regular "x.tiff"])
                    (converted_of [regular "x.webp"]).
Proof.
  apply (webp_file_marks_every_extension "/work/scans" [regular "x.tif"; regular "x.tiff"]
           [regular "x.webp"] "x" "tiff").
  - intros H; apply list_elem_of_In in H; vm_compute in H; decompose [or] H;
      discriminate || contradiction.
  - intros H; apply list_elem_of_In in H; vm_compute in H; decompose [or] H;
      discriminate || contradiction.
  - intros H; apply list_elem_of_In in H; vm_compute in H; decompose [or] H;
      discriminate || contradiction.
  - exists "x"%char. split; [|discriminate]. apply list_elem_of_In. vm_compute. now left.
  - apply elem_of_cons. now left.
Defined.

(** * Discovery that fails, and manifests *)

Section Manifests.

Context {F : Type} `{!PyFloat F}.
Variable cwebp : FS -> string -> string -> option F * FS.

Lemma for_app {A S} (l1 l2 : list A) (s : S) (body : S -> A -> M S) w :
  for_ (l1 ++ l2) s body w = (let! s' := for_ l1 s body in for_ l2 s' body) w.
Proof.
  revert s w. induction l1 as [|x l1 IH]; intros s w; [reflexivity|].
  cbn [for_ app]. unfold bind at 1 2 3.
  destruct (body s x w) as [[s1|e] w1]; [|reflexivity]. apply IH.
Qed.

(** X11.  A subdirectory of the root that cannot be listed ends the
    discovery with an [OSError]: the directories found before it are not
    returned, and nothing is written. *)
Theorem unlistable_subdirectory_aborts_discovery root_path w pre e post :
  dirs (fs w) !! root_path = Some (pre ++ e :: post) ->
  (forall x, x ∈ pre -> is_dir x = true ->
             is_Some (dirs (fs w) !! entry_path root_path x)) ->
  is_dir e = true ->
  dirs (fs w) !! entry_path root_path e = None ->
  exists w',
    find_tiff_dirs root_path w = (Raise (OSError (entry_path root_path e)), w') /\
    fs w' = fs w /\
    trace w' = trace w ++ EvScanDir root_path
                       :: map (fun x => EvScanDir (entry_path root_path x))
                              (filter (fun x => is_dir x) pre)
                       ++ [EvScanDir (entry_path root_path e)].
Proof.
  intros Hroot Hpre He Hnone. unfold find_tiff_dirs. unfold bind at 1.
  rewrite scandir_eq, Hroot, for_app. unfold bind at 1.
  destruct (find_tiff_dirs_loop root_path pre [] (log w (EvScanDir root_path)) Hpre)
    as (w1 & Hrun & Hfs & _ & Htr).
  rewrite Hrun. cbn [for_]. unfold bind at 1. unfold find_tiff_dirs_step at 1.
  rewrite He. cbn [negb]. unfold bind at 1. rewrite scandir_eq, Hfs. cbn [fs log].
  rewrite Hnone. eexists. split; [reflexivity|]. split; [exact Hfs|].
  cbn [trace log]. rewrite Htr. cbn [trace log]. now rewrite <- !app_assoc.
Qed.

Lemma prefix_free_spec codes :
  prefix_free codes = true ->
  (forall b, b ∈ codes -> b <> []) /\
  (forall b c, b ∈ codes -> c ∈ codes -> b `prefix_of` c -> b = c).
Proof.
  unfold prefix_free. rewrite forallb_forall. intros H. split.
  - intros b Hb. apply list_elem_of_In, H, andb_true_iff in Hb as [Hb _].
    apply negb_true_iff, bool_decide_eq_false in Hb. exact Hb.
  - intros b c Hb Hc Hp. apply list_elem_of_In, H, andb_true_iff in Hb as [_ Hb].
    rewrite forallb_forall in Hb. apply list_elem_of_In, Hb in Hc.
    rewrite (bool_decide_eq_true_2 _ Hp) in Hc. now apply bool_decide_eq_true in Hc.
Qed.

Lemma blank_codes_prefix_free : prefix_free Str.blank_codes = true.
Proof. vm_compute. reflexivity. Qed.

Lemma rev_blank_codes_prefix_free : prefix_free (map (@rev ascii) Str.blank_codes) = true.
Proof. vm_compute. reflexivity. Qed.

(** What [strip_code] removes is one of the codes. *)
Lemma strip_code_some codes l r :
  Str.strip_code codes l = Some r -> exists b, b ∈ codes /\ l = b ++ r.
Proof.
  induction codes as [|b cs IH]; cbn [Str.strip_code]; [discriminate|].
  destruct (bool_decide (b `prefix_of` l)) eqn:Hp.
  - intros [= <-]. apply bool_decide_eq_true in Hp as [k ->].
    exists b. split; [apply elem_of_cons; now left|]. now rewrite drop_app_length.
  - intros H. destruct (IH H) as (b' & Hb & E).
    exists b'. split; [apply elem_of_cons; now right|assumption].
Qed.

(** When it removes nothing, the characters start with none of the codes. *)
Lemma strip_code_none codes l b r :
  Str.strip_code codes l = None -> b ∈ codes -> l <> b ++ r.
Proof.
  induction codes as [|c cs IH]; cbn [Str.strip_code]; intros H Hb.
  - now apply elem_of_nil in Hb.
  - destruct (bool_decide (c `prefix_of` l)) eqn:Hp; [discriminate|].
    apply bool_decide_eq_false in Hp.
    apply elem_of_cons in Hb as [->|Hb]; [|now apply IH].
    intros ->. apply Hp. now exists r.
Qed.

(** It removes the code the characters start with. *)
Lemma strip_code_first codes b r :
  prefix_free codes = true -> b ∈ codes -> Str.strip_code codes (b ++ r) = Some r.
Proof.
  intros Hfree Hb. apply prefix_free_spec in Hfree as [_ Hfree].
  destruct (Str.strip_code codes (b ++ r)) as [r'|] eqn:Hs.
  - destruct (strip_code_some _ _ _ Hs) as (c & Hc & E).
    assert (Hbc : b = c).
    { destruct (prefix_weak_total b c (b ++ r)) as [H|H].
      - now exists r.
      - rewrite E. now exists r'.
      - now apply Hfree.
      - symmetry. now apply Hfree. }
    subst c. now apply app_inv_head in E as ->.
  - exfalso. now apply (strip_code_none _ _ b r Hs).
Qed.

(** [lstrip_codes] removes a run of codes at the beginning ... *)
Lemma lstrip_codes_run codes n l :
  exists pre, l = pre ++ Str.lstrip_codes codes n l /\ code_run codes pre.
Proof.
  revert l. induction n as [|n IH]; intros l; cbn [Str.lstrip_codes].
  - exists []. split; [reflexivity|constructor].
  - destruct (Str.strip_code codes l) as [r|] eqn:Hs.
    + destruct (strip_code_some _ _ _ Hs) as (b & Hb & ->).
      destruct (IH r) as (pre & Hpre & Hrun).
      exists (b ++ pre). split; [now rewrite <- app_assoc, <- Hpre|now constructor].
    + exists []. split; [reflexivity|constructor].
Qed.

(** ... and all of it, when [n] is the length of the characters or more. *)
Lemma lstrip_codes_done codes n l :
  prefix_free codes = true -> (length l <= n)%nat ->
  Str.strip_code codes (Str.lstrip_codes codes n l) = None.
Proof.
  intros Hfree. pose proof (prefix_free_spec _ Hfree) as [Hne _].
  revert l. induction n as [|n IH]; intros l Hn; cbn [Str.lstrip_codes].
  - destruct l; [|cbn [length] in Hn; lia].
    destruct (Str.strip_code codes []) as [r|] eqn:Hs; [|reflexivity].
    destruct (strip_code_some _ _ _ Hs) as (b & Hb & E).
    symmetry in E. apply app_eq_nil in E as [E _]. now apply Hne in Hb.
  - destruct (Str.strip_code codes l) as [r|] eqn:Hs; [|exact Hs].
    destruct (strip_code_some _ _ _ Hs) as (b & Hb & ->).
    apply IH. rewrite length_app in Hn. apply Hne in Hb.
    destruct b; [contradiction|]. cbn [length] in Hn. lia.
Qed.

(** Of a run of codes nothing is left. *)
Lemma lstrip_codes_all codes n l :
  prefix_free codes = true -> code_run codes l -> (length l <= n)%nat ->
  Str.lstrip_codes codes n l = [].
Proof.
  intros Hfree Hrun. pose proof (prefix_free_spec _ Hfree) as [Hne _].
  revert n. induction Hrun as [|b l Hb Hrun IH]; intros n Hn.
  - destruct n; cbn [Str.lstrip_codes]; [reflexivity|].
    destruct (Str.strip_code codes []) as [r|] eqn:Hs; [|reflexivity].
    destruct (strip_code_some _ _ _ Hs) as (c & Hc & E).
    symmetry in E. apply app_eq_nil in E as [E _]. now apply Hne in Hc.
  - rewrite length_app in Hn. pose proof (Hne _ Hb) as Hbne.
    destruct n; [destruct b; [contradiction|cbn [length] in Hn; lia]|].
    cbn [Str.lstrip_codes]. rewrite (strip_code_first _ _ _ Hfree Hb).
    apply IH. destruct b; [contradiction|]. cbn [length] in Hn. lia.
Qed.

Lemma code_run_app codes a b : code_run codes a -> code_run codes b -> code_run codes (a ++ b).
Proof.
  induction 1 as [|c l Hc Hl IH]; intros Hb; [assumption|].
  rewrite <- app_assoc. constructor; auto.
Qed.

(** A run of reversed codes, read backwards, is a run of codes. *)
Lemma code_run_rev codes l : code_run (map (@rev ascii) codes) l -> code_run codes (rev l).
Proof.
  induction 1 as [|b l Hb Hl IH]; [constructor|].
  apply list_elem_of_In, in_map_iff in Hb as (c & <- & Hc).
  rewrite rev_app_distr, rev_involutive. apply code_run_app; [assumption|].
  rewrite <- (app_nil_r c). constructor; [now apply list_elem_of_In|constructor].
Qed.

(** [strip] takes a run of white space off each end of a string and leaves
    what neither starts nor ends with white space. *)
Lemma strip_spec s :
  (exists pre post, Str.chars s = pre ++ Str.chars (Str.strip s) ++ post /\
                    blank_run pre /\ blank_run post) /\
  ~ starts_blank (Str.chars (Str.strip s)) /\
  ~ ends_blank (Str.chars (Str.strip s)).
Proof.
  unfold Str.strip, Str.rstrip_chars, Str.lstrip_chars. rewrite chars_of_chars.
  set (l := Str.chars s).
  set (a := Str.lstrip_codes Str.blank_codes (length l) l).
  set (rb := Str.lstrip_codes (map (@rev ascii) Str.blank_codes) (length a) (rev a)).
  destruct (lstrip_codes_run Str.blank_codes (length l) l) as (pre & Hl & Hpre).
  fold a in Hl.
  pose proof (lstrip_codes_done Str.blank_codes (length l) l blank_codes_prefix_free
                (Nat.le_refl _)) as Ha.
  fold a in Ha.
  destruct (lstrip_codes_run (map (@rev ascii) Str.blank_codes) (length a) (rev a))
    as (q & Hq & Hrun).
  fold rb in Hq.
  assert (Hrb : Str.strip_code (map (@rev ascii) Str.blank_codes) rb = None).
  { apply lstrip_codes_done; [apply rev_blank_codes_prefix_free|]. now rewrite length_rev. }
  assert (Hsplit : a = rev rb ++ rev q).
  { rewrite <- rev_app_distr, <- Hq. now rewrite rev_involutive. }
  split; [|split].
  - exists pre, (rev q). split; [now rewrite <- Hsplit|].
    split; [exact Hpre|now apply code_run_rev].
  - intros (b & r & Hb & E). apply (strip_code_none _ _ b (r ++ rev q) Ha Hb).
    now rewrite Hsplit, E, <- app_assoc.
  - intros (b & r & Hb & E).
    apply (strip_code_none _ _ (rev b) (rev r) Hrb).
    + apply list_elem_of_In, in_map. now apply list_elem_of_In.
    + rewrite <- rev_app_distr, <- E. now rewrite rev_involutive.
Qed.

(** A string of white space only is stripped to nothing. *)
Lemma strip_blank s : blank_run (Str.chars s) -> Str.strip s = "".
Proof.
  intros Hrun. unfold Str.strip, Str.lstrip_chars.
  now rewrite (lstrip_codes_all _ _ _ blank_codes_prefix_free Hrun (Nat.le_refl _)).
Qed.

(** X12.  The directories read from a manifest are its lines without the
    white space at their ends (every code point that [str.isspace] holds
    for: a carriage return and a no-break space are two), in the order of
    the file, the lines of white space only left out: no directory of the
    list is empty or starts or ends with white space. *)
Theorem manifest_directories_are_trimmed lines d :
  d ∈ manifest_directories lines ->
  d <> "" /\
  ~ starts_blank (Str.chars d) /\
  ~ ends_blank (Str.chars d) /\
  (exists line pre post,
     line ∈ lines /\ Str.chars line = pre ++ Str.chars d ++ post /\
     blank_run pre /\ blank_run post) /\
  (forall before after blank,
     blank_run (Str.chars blank) ->
     manifest_directories (before ++ blank :: after) = manifest_directories (before ++ after)) /\
  (forall before after,
     manifest_directories (before ++ after) =
     manifest_directories before ++ manifest_directories after).
Proof.
  unfold manifest_directories. rewrite list_elem_of_filter.
  intros [Ht Hin]. apply Is_true_true in Ht.
  apply list_elem_of_In, in_map_iff in Hin as (line & <- & Hline).
  split; [intros E; now rewrite E in Ht|].
  destruct (strip_spec line) as ((pre & post & Hsplit & Hpre & Hpost) & Hs & He).
  split; [exact Hs|]. split; [exact He|]. split; [|split].
  - exists line, pre, post. split; [now apply list_elem_of_In|auto].
  - intros before after blank Hb.
    rewrite !map_app, !filter_app. cbn [map].
    rewrite (filter_cons_bool Str.truthy), (strip_blank _ Hb). reflexivity.
  - intros before after. now rewrite map_app, filter_app.
Qed.

(** The loop over a manifest whose directories do not exist logs an error
    for each and changes nothing. *)
Lemma for_manifest_missing output_root ds (t : totals F) w :
  (forall d, d ∈ ds -> isdir_fs (fs w) d = false) ->
  for_ ds t (manifest_step cwebp output_root) w =
  (Ok t, {| fs := fs w; cwd := cwd w;
            trace := trace w ++ replicate (length ds) EvLogError |}).
Proof.
  revert w. induction ds as [|d ds IH]; intros w Hall.
  - cbn. rewrite app_nil_r. now destruct w.
  - cbn [for_]. unfold bind at 1. unfold manifest_step, isdir, get_fs.
    unfold bind at 1 2. unfold ret at 1.
    rewrite (Hall d) by (apply elem_of_cons; now left).
    unfold bind at 1, log_event, ret.
    rewrite IH by (intros d' Hd'; cbn [fs log]; apply Hall, elem_of_cons; now right).
    cbn [fs cwd trace log length replicate]. now rewrite <- app_assoc.
Qed.

(** X13.  A manifest that can be read and whose lines name no existing
    directory (an empty manifest is one) ends the script with status 0:
    [main] returns a report of zeros, and the events of the run are one
    error logged for every directory of the list, so that [os.makedirs],
    [os.scandir] and the encoder are not called. *)
Theorem stale_manifest_exits_0 args w tg x ls :
  target args = Some tg ->
  output_dir args = None ->
  tg <> "" ->
  isdir_fs (fs w) tg = false ->
  files (fs w) !! tg = Some x ->
  content x = Lines ls ->
  Str.endswith tg ".txt" = true ->
  (forall d, d ∈ manifest_directories ls -> isdir_fs (fs w) d = false) ->
  exists w',
    main cwebp args w =
      (Ok {| run_totals := totals_init; avg_file_time := I 0; compression_ratio := I 0 |},
       w') /\
    trace w' = trace w ++ replicate (length (manifest_directories ls)) EvLogError /\
    fst (script cwebp args w) = 0.
Proof.
  intros Ht Ho Hne Hd Hx Hc He Hall.
  assert (Htr : Str.truthy tg = true) by (destruct tg; [contradiction|reflexivity]).
  assert (Hf : isfile_fs (fs w) tg = true).
  { unfold isfile_fs. apply bool_decide_eq_true. rewrite Hx. eauto. }
  assert (Hmain : main cwebp args w =
    (Ok {| run_totals := totals_init; avg_file_time := I 0; compression_ratio := I 0 |},
     {| fs := fs w; cwd := cwd w;
        trace := trace w ++ replicate (length (manifest_directories ls)) EvLogError |})).
  { rewrite main_eq. unfold bind at 1. rewrite ensure_output_dir_eq.
    unfold run_target. rewrite Ht, Htr, !Ho.
    unfold isdir, isfile, read_lines, get_fs. unfold bind at 1 2. unfold ret at 1.
    rewrite Hd. unfold bind at 1 2. unfold ret at 1. rewrite Hf, He. cbn [andb].
    unfold bind at 1 2. rewrite Hx, Hc. unfold ret at 1.
    now rewrite (for_manifest_missing None _ _ _ Hall). }
  eexists. split; [exact Hmain|]. split; [reflexivity|].
  unfold script. now rewrite Hmain.
Qed.

End Manifests.

Lemma unlistable_subdirectory_aborts_discovery_witness :
  fst (find_tiff_dirs "/work" locked_world) = Raise (OSError "/work/locked").
Proof.
  destruct (unlistable_subdirectory_aborts_discovery "/work" locked_world
              [subdir "scans"] (subdir "locked") [subdir "more"])
    as (w' & Hrun & _).
  - vm_compute. reflexivity.
  - intros x Hx _. apply list_elem_of_In in Hx. cbn [In] in Hx.
    destruct Hx as [<-|[]]. vm_compute. eauto.
  - reflexivity.
  - vm_compute. reflexivity.
  - now rewrite Hrun.
Defined.

Lemma manifest_directories_are_trimmed_witness :
  manifest_directories
    ["/gone/a" +:+ String "013" (String "010" "");
     String "194" (String "160" "") +:+ String "010" "";
     String "227" (String "128" (String "128" "")) +:+ "/gone/b"
       +:+ String "194" (String "160" " ")]
  = ["/gone/a"; "/gone/b"] /\ "/gone/b" <> "".
Proof.
  split; [vm_compute; reflexivity|].
  apply (manifest_directories_are_trimmed
           ["/gone/a" +:+ String "013" (String "010" "");
            String "194" (String "160" "") +:+ String "010" "";
            String "227" (String "128" (String "128" "")) +:+ "/gone/b"
              +:+ String "194" (String "160" " ")] "/gone/b").
  vm_compute. apply elem_of_cons. right. apply elem_of_cons. now left.
Defined.

Lemma stale_manifest_exits_0_witness :
  fst (script half_encoder {| target := Some "/work/old.txt"; output_dir := None |}
              stale_world) = 0.
Proof.
  destruct (stale_manifest_exits_0 half_encoder
              {| target := Some "/work/old.txt"; output_dir := None |} stale_world
              "/work/old.txt"
              {| st_size := 30;
                 content := Lines ["/gone/a" +:+ String "013" (String "010" "");
                                   "   " +:+ String "010" "";
                                   String "009" "/gone/b  "] |}
              ["/gone/a" +:+ String "013" (String "010" "");
               "   " +:+ String "010" "";
               String "009" "/gone/b  "])
    as (w' & _ & _ & Hexit).
  - reflexivity.
  - reflexivity.
  - discriminate.
  - vm_compute. reflexivity.
  - vm_compute. reflexivity.
  - reflexivity.
  - vm_compute. reflexivity.
  - intros d Hd. vm_compute in Hd. apply list_elem_of_In in Hd. cbn [In] in Hd.
    decompose [or] Hd; subst; try contradiction; vm_compute; reflexivity.
  - exact Hexit.
Defined.

(** * The modes of the driver *)

Section Modes.

Context {F : Type} `{!PyFloat F}.
Variable cwebp : FS -> string -> string -> option F * FS.

(** X14.  Given a directory as target, [main] converts every TIFF file of
    it again: when it returns, the encoder has been called exactly once for
    each TIFF file of the listing, in order, whether or not the destination
    held its output already, and the count reported is at most their
    number. *)
Theorem directory_target_converts_everything args w tg es s w' :
  target args = Some tg ->
  output_dir args = None ->
  tg <> "" ->
  isdir_fs (fs w) tg = true ->
  fst (makedirs (webp_dir_of tg None) w) = Ok tt ->
  dirs (fs (after_makedirs (webp_dir_of tg None) w)) !! tg = Some es ->
  main cwebp args w = (Ok s, w') ->
  encodes (trace w') =
    encodes (trace w) ++
    map (fun p => EvEncode p (output_path_of (webp_dir_of tg None) p)) (tiff_files_of tg es) /\
  0 <= total_files (run_totals s) <= Z.of_nat (length (tiff_files_of tg es)).
Proof.
  intros Ht Ho Hne Hd Hm Hes.
  assert (Htr : Str.truthy tg = true) by (destruct tg; [contradiction|reflexivity]).
  pose proof (files_to_convert_eq tg None true w es Hm Hes) as Hsel. cbn iota in Hsel.
  rewrite main_eq. unfold bind at 1. rewrite ensure_output_dir_eq.
  unfold run_target. rewrite Ht, Htr, !Ho.
  unfold isdir, get_fs. unfold bind at 1 2. unfold ret at 1. rewrite Hd.
  unfold process_and_add, bind, ret.
  destruct (process_directory cwebp tg None true w) as [[r|e] w1] eqn:Hrun; [|discriminate].
  intros [= <- <-].
  destruct (process_directory_inv cwebp _ _ _ _ _ _ _ _ Hsel Hrun) as (st & Hloop & Hcount).
  destruct (for_convert_counts cwebp _ _ _ _ _ _ Hloop) as (added & _ & Hc & Hlen & _).
  split.
  - rewrite (for_convert_encodes cwebp _ _ _ _ _ _ Hloop). cbn [trace log].
    rewrite makedirs_trace, !encodes_app. cbn. now rewrite !app_nil_r.
  - cbn [run_totals summary_of total_files accumulate totals_init].
    rewrite Hcount, Hc. cbn [ls_success_count loop_init]. lia.
Qed.

(** X15.  Without target, a working directory none of whose subdirectories
    holds a TIFF file ends the script with status 0 and a report of zeros:
    the events of the run are the listings of the working directory and of
    its subdirectories, so that [os.makedirs] and the encoder are not
    called. *)
Theorem nothing_to_discover_exits_0 args w es :
  target args = None ->
  output_dir args = None ->
  dirs (fs w) !! cwd w = Some es ->
  (forall e, e ∈ es -> is_dir e = true -> is_Some (dirs (fs w) !! entry_path (cwd w) e)) ->
  tiff_subdirs (fs w) (cwd w) es = [] ->
  exists w',
    main cwebp args w =
      (Ok {| run_totals := totals_init; avg_file_time := I 0; compression_ratio := I 0 |}, w') /\
    fst (script cwebp args w) = 0 /\
    trace w' = trace w ++ EvScanDir (cwd w)
                       :: map (fun e => EvScanDir (entry_path (cwd w) e))
                              (filter (fun e => is_dir e) es) /\
    encodes (trace w') = encodes (trace w).
Proof.
  intros Ht Ho Hroot Hsub Hnone.
  destruct (find_tiff_dirs_loop (cwd w) es [] (log w (EvScanDir (cwd w))) Hsub)
    as (w1 & Hrun & Hfs & _ & Htr).
  cbn [fs log app] in Hrun. rewrite Hnone in Hrun.
  assert (Hmain : main cwebp args w =
    (Ok {| run_totals := totals_init; avg_file_time := I 0; compression_ratio := I 0 |}, w1)).
  { rewrite main_eq. unfold bind at 1. rewrite ensure_output_dir_eq, Ho.
    unfold run_target. rewrite Ht. unfold scan_mode, getcwd. unfold bind at 1 2.
    unfold find_tiff_dirs. unfold bind at 1. rewrite scandir_eq, Hroot, Hrun. reflexivity. }
  exists w1. split; [exact Hmain|]. split; [unfold script; now rewrite Hmain|].
  split; [rewrite Htr; cbn [trace log]; now rewrite <- app_assoc|].
  rewrite Htr. cbn [trace log]. rewrite !encodes_app.
  assert (Hscan : forall l, encodes (map (fun e => EvScanDir (entry_path (cwd w) e)) l) = []).
  { induction l as [|x l IH]; [reflexivity|]. exact IH. }
  rewrite Hscan. cbn. now rewrite !app_nil_r.
Qed.

Lemma for_keeps {A S} (P : S -> Prop) (body : S -> A -> M S) :
  (forall s x w s' w', P s -> body s x w = (Ok s', w') -> P s') ->
  forall l s w s' w', P s -> for_ l s body w = (Ok s', w') -> P s'.
Proof.
  intros Hb. induction l as [|x l IH]; intros s w s' w' Hs.
  - now intros [= <- _].
  - cbn [for_]. unfold bind. destruct (body s x w) as [[s1|e] w1] eqn:Hx; [|discriminate].
    apply IH. now apply (Hb _ _ _ _ _ Hs Hx).
Qed.

Lemma process_directory_count tiff_dir output_root force w r w' :
  process_directory cwebp tiff_dir output_root force w = (Ok r, w') -> 0 <= count r.
Proof.
  intros Hrun.
  destruct (files_to_convert tiff_dir output_root force w) as [[work|e] wa] eqn:Hsel.
  - destruct (process_directory_inv cwebp _ _ _ _ _ _ _ _ Hsel Hrun) as (st & Hloop & ->).
    destruct (for_convert_counts cwebp _ _ _ _ _ _ Hloop) as (added & _ & -> & _).
    cbn [ls_success_count loop_init]. lia.
  - unfold process_directory, bind in Hrun. now rewrite Hsel in Hrun.
Qed.

Lemma process_and_add_count output_root force (t : totals F) d w t' w' :
  0 <= total_files t ->
  process_and_add cwebp output_root force t d w = (Ok t', w') ->
  0 <= total_files t'.
Proof.
  intros Ht. unfold process_and_add, bind, ret.
  destruct (process_directory cwebp d output_root force w) as [[r|e] w1] eqn:Hrun;
    [|discriminate].
  intros [= <- _]. cbn [total_files accumulate].
  pose proof (process_directory_count _ _ _ _ _ _ Hrun). lia.
Qed.

(** X16.  The number of files a run reports is never negative, in any
    mode: the average time of the report is 0 exactly when no file was
    converted, and the time divided by a positive count otherwise. *)
Theorem reported_count_is_not_negative args w s w' :
  main cwebp args w = (Ok s, w') ->
  0 <= total_files (run_totals s) /\
  (total_files (run_totals s) = 0 -> avg_file_time s = I 0) /\
  (0 < total_files (run_totals s) ->
   avg_file_time s = py_div (total_time (run_totals s)) (total_files (run_totals s))).
Proof.
  rewrite main_eq. unfold bind at 1.
  destruct (ensure_output_dir args w) as [[[]|e] w1]; [|discriminate].
  destruct (run_target cwebp args w1) as [[t|e] w2] eqn:Hrun; [|discriminate].
  intros [= <- _]. cbn [run_totals summary_of avg_file_time].
  assert (Hinit : 0 <= total_files (@totals_init F)) by (cbn; lia).
  assert (Ht : 0 <= total_files t).
  { revert Hrun. unfold run_target.
    assert (Hscan : scan_mode cwebp (output_dir args) w1 = (Ok t, w2) -> 0 <= total_files t).
    { unfold scan_mode, getcwd. unfold bind at 1 2.
      destruct (find_tiff_dirs (cwd w1) w1) as [[ds|e] w3]; [|discriminate].
      apply (for_keeps (fun t => 0 <= total_files t)); [|exact Hinit].
      intros t0 d w0 t1 w4. apply process_and_add_count. }
    destruct (target args) as [tg|]; [|exact Hscan].
    destruct (Str.truthy tg); [|exact Hscan].
    unfold isdir, isfile, read_lines, get_fs, bind, ret.
    destruct (isdir_fs (fs w1) tg); [now apply process_and_add_count|].
    destruct (isfile_fs (fs w1) tg && Str.endswith tg ".txt"); [|discriminate].
    destruct (files (fs w1) !! tg) as [x|]; [|discriminate].
    destruct (content x) as [ls| |]; [|discriminate..].
    apply (for_keeps (fun t => 0 <= total_files t)); [|exact Hinit].
    intros t0 d w0 t1 w4 Ht0. unfold manifest_step, isdir, get_fs, bind, ret.
    destruct (isdir_fs (fs w0) d).
    - now apply process_and_add_count.
    - unfold log_event. now intros [= <- _]. }
  split; [exact Ht|]. split.
  - intros ->. reflexivity.
  - intros Hpos. destruct (total_files t =? 0) eqn:Hz; [|reflexivity].
    apply Z.eqb_eq in Hz. lia.
Qed.

End Modes.

Lemma directory_target_converts_everything_witness :
  encodes (trace (snd (main half_encoder {| target := Some "/work/scans"; output_dir := None |}
                            done_world)))
  = [EvEncode "/work/scans/a.tif" "/work/scans_webp/a.webp";
     EvEncode "/work/scans/b.tiff" "/work/scans_webp/b.webp"].
Proof.
  destruct (directory_target_converts_everything half_encoder
              {| target := Some "/work/scans"; output_dir := None |} done_world
              "/work/scans" [regular "a.tif"; regular "b.tiff"]
              {| run_totals := {| total_files := 2; total_time := Fl 1%Q;
                                  total_orig_size := 3000; total_compressed_size := 1500 |};
                 avg_file_time := Fl (1 # 2)%Q; compression_ratio := Fl (1 # 2)%Q |}
              (snd (main half_encoder {| target := Some "/work/scans"; output_dir := None |}
                         done_world))) as [Henc _].
  - reflexivity.
  - reflexivity.
  - discriminate.
  - vm_compute. reflexivity.
  - vm_compute. reflexivity.
  - vm_compute. reflexivity.
  - vm_compute. reflexivity.
  - rewrite Henc. vm_compute. reflexivity.
Defined.

Lemma nothing_to_discover_exits_0_witness :
  fst (script half_encoder {| target := None; output_dir := None |} stale_world) = 0.
Proof.
  destruct (nothing_to_discover_exits_0 half_encoder
              {| target := None; output_dir := None |} stale_world [regular "old.txt"])
    as (w' & _ & Hexit & _).
  - reflexivity.
  - reflexivity.
  - vm_compute. reflexivity.
  - intros e He Hd. apply list_elem_of_In in He. cbn [In] in He.
    destruct He as [<-|[]]. discriminate.
  - vm_compute. reflexivity.
  - exact Hexit.
Defined.

Lemma reported_count_is_not_negative_witness :
  main uneven_encoder batch_args batch_world
    = (Ok {| run_totals := {| total_files := 2; total_time := Fl 1%Q;
                              total_orig_size := 4000; total_compressed_size := 800 |};
             avg_file_time := Fl (1 # 2)%Q; compression_ratio := Fl (1 # 5)%Q |},
       snd (main uneven_encoder batch_args batch_world)) /\
  0 <= 2.
Proof.
  assert (Hmain : main uneven_encoder batch_args batch_world
    = (Ok {| run_totals := {| total_files := 2; total_time := Fl 1%Q;
                              total_orig_size := 4000; total_compressed_size := 800 |};
             avg_file_time := Fl (1 # 2)%Q; compression_ratio := Fl (1 # 5)%Q |},
       snd (main uneven_encoder batch_args batch_world)))
    by (vm_compute; reflexivity).
  split; [exact Hmain|].
  now destruct (reported_count_is_not_negative uneven_encoder batch_args batch_world _ _ Hmain).
Defined.
